(** * Verification of [addons/web/static/src/core/utils/hooks.js]

    The four hooks of the file ([useAutofocus], [useBus], [useListener],
    [useService]) are embedded over a small model of the JavaScript run time
    they live in: tagged values, a store of function objects, plain objects
    and promises, the listeners of the event targets, the suspended bodies of
    asynchronous functions and a trace of the calls that leave the file. *)

From Stdlib Require Import ZArith String List Lia.
From stdpp Require Import base gmap strings list fin_maps.

Local Open Scope string_scope.
Local Open Scope Z_scope.

(** ** JavaScript values *)

Module JS.

(** A DOM element is named by its position in the document: the child indices
    from the element up to the document element, nearest first.  The document
    element is [[]]; [parentElement] drops the first index. *)
Definition node := list nat.

Definition parentElement (el : node) : option node :=
  match el with
  | [] => None
  | _ :: parent => Some parent
  end.

(** Event targets: DOM elements and event buses. *)
Inductive target :=
| Element (n : node)
| Bus (b : nat).

(** Values carry the tag that [typeof] and [instanceof Function] observe; the
    number is the identity of the object, compared by [===]. *)
Inductive val :=
| VUndefined
| VNull
| VBool (b : bool)
| VNum (n : Z)
| VStr (s : string)
| VObj (l : nat)                       (* a plain object *)
| VFun (f : nat)                       (* a function object *)
| VPromise (p : nat)                   (* a promise *)
| VTarget (t : target)                 (* an element or a bus *)
| VEvent (type : string) (tgt : target) (* an event and its [target] *)
| VError (message : string)            (* [new Error(message)] *)
| VTypeError (message : string)
| VRangeError (message : string).

#[global] Instance target_eq_dec : EqDecision target.
Proof. solve_decision. Defined.

#[global] Instance val_eq_dec : EqDecision val.
Proof. solve_decision. Defined.

(** Result of evaluating a call: a value, or a thrown value. *)
Inductive completion (A : Type) :=
| Normal (a : A)
| Throw (e : val).
Arguments Normal {A} a.
Arguments Throw {A} e.

(** [if (v)], [v || w], [!v]. *)
Definition truthy (v : val) : bool :=
  match v with
  | VUndefined | VNull => false
  | VBool b => b
  | VNum n => negb (n =? 0)
  | VStr s => negb (bool_decide (s = ""))
  | _ => true
  end.

Definition typeof (v : val) : string :=
  match v with
  | VUndefined => "undefined"
  | VBool _ => "boolean"
  | VNum _ => "number"
  | VStr _ => "string"
  | VFun _ => "function"
  | _ => "object"
  end.

(** [v instanceof Function]. *)
Definition instanceof_Function (v : val) : bool :=
  match v with
  | VFun _ => true
  | _ => false
  end.

(** [a !== b] (the model has no NaN). *)
Definition strict_neq (a b : val) : bool := bool_decide (a ≠ b).

(** [n++] on a number that holds a non-negative integer: exact below 2^53,
    where a double absorbs the increment. *)
Definition increment (n : Z) : Z := if n <? 2 ^ 53 then n + 1 else n.

(** [arguments[i]]. *)
Definition argument (i : nat) (arguments : list val) : val :=
  nth i arguments VUndefined.

End JS.
Export JS.

(** ** The run-time state *)

Module Runtime.

(** The properties of a DOM element that the hooks read or write;
    [matches el selector] is the element's own [el.matches(selector)]. *)
Record element := {
  tagName : string;
  value : string;
  selectionStart : val;
  selectionEnd : val;
  matches : string -> bool;
}.

(** Plain objects: prototype and own properties. *)
Record object := {
  proto : val;
  props : gmap string val;
}.

(** What a function defined outside the file does when it is called: it
    returns a value, throws, or starts an asynchronous operation and returns
    the new promise that the operation settles later. *)
Inductive behaviour :=
| Returns (v : val)
| Throws (e : val)
| Starts.

(** Function objects.  The functions the file creates at run time are kept
    with the variables they close over. *)
Inductive closure :=
| External (b : behaviour)
| Bound (target this : val)                       (* [target.bind(this)] *)
| Delegate (querySelector : string) (handler : val) (* [boundHandler] of useListener *)
| Protected (caller fn : val).                    (* the wrapper of _protectMethod *)

Inductive pstate :=
| Pending
| Fulfilled (v : val)
| Rejected (e : val).

(** [settleable]: code outside the file holds the promise's resolving
    functions. *)
Record promise := {
  state : pstate;
  settleable : bool;
}.

(** Bodies of [async] functions: the operations of the body in order, each
    with the rest of the body.  A throw or rejection ends the body (the file
    has no [try]). *)
Inductive async (A : Type) :=
| Ret (a : A)                                             (* return a *)
| Fail (e : val)                                          (* throw e *)
| Status (k : Z -> async A)                               (* component.__owl__.status *)
| Call (fn this : val) (args : list val) (k : val -> async A) (* fn.call(this, ...args) *)
| Await (v : val) (k : val -> async A)                    (* await v *)
| NewPromise (k : val -> async A).                        (* new Promise(() => {}) *)
Arguments Ret {A} a.
Arguments Fail {A} e.
Arguments Status {A} k.
Arguments Call {A} fn this args k.
Arguments Await {A} v k.
Arguments NewPromise {A} k.

(** A body parked at an [await], and the promise its caller got. *)
Record task := {
  awaited : val;
  continuation : val -> async val;
  outcome : nat;
}.

(** Calls that leave the file. *)
Inductive action :=
| Invoked (f : nat) (this : val) (args : list val)   (* an outside function ran *)
| Focused (n : node).                                (* native [el.focus()] *)

Record environment := {
  isSmall : val;
  services : gmap string val;
}.

(** The component that runs the hooks: [comp.env], [comp.el],
    [comp.__owl__.status], and the elements its [t-ref]s resolve to. *)
Record component := {
  self : nat;
  env : environment;
  el : node;
  status : Z;
  refs : gmap string node;
}.

Record world := {
  comp : component;
  document : node -> element;
  functions : gmap nat closure;
  objects : gmap nat object;
  promises : gmap nat promise;
  cells : gmap nat Z;                       (* [let] variables shared by closures *)
  listeners : list (target * string * val); (* addEventListener registrations *)
  tasks : list task;
  trace : list action;
}.

Definition set_comp (c : component) (w : world) : world :=
  {| comp := c; document := document w; functions := functions w; objects := objects w;
     promises := promises w; cells := cells w; listeners := listeners w;
     tasks := tasks w; trace := trace w |}.

Definition set_document (d : node -> element) (w : world) : world :=
  {| comp := comp w; document := d; functions := functions w; objects := objects w;
     promises := promises w; cells := cells w; listeners := listeners w;
     tasks := tasks w; trace := trace w |}.

Definition set_functions (fs : gmap nat closure) (w : world) : world :=
  {| comp := comp w; document := document w; functions := fs; objects := objects w;
     promises := promises w; cells := cells w; listeners := listeners w;
     tasks := tasks w; trace := trace w |}.

Definition set_objects (os : gmap nat object) (w : world) : world :=
  {| comp := comp w; document := document w; functions := functions w; objects := os;
     promises := promises w; cells := cells w; listeners := listeners w;
     tasks := tasks w; trace := trace w |}.

Definition set_promises (ps : gmap nat promise) (w : world) : world :=
  {| comp := comp w; document := document w; functions := functions w; objects := objects w;
     promises := ps; cells := cells w; listeners := listeners w;
     tasks := tasks w; trace := trace w |}.

Definition set_cells (cs : gmap nat Z) (w : world) : world :=
  {| comp := comp w; document := document w; functions := functions w; objects := objects w;
     promises := promises w; cells := cs; listeners := listeners w;
     tasks := tasks w; trace := trace w |}.

Definition set_listeners (ls : list (target * string * val)) (w : world) : world :=
  {| comp := comp w; document := document w; functions := functions w; objects := objects w;
     promises := promises w; cells := cells w; listeners := ls;
     tasks := tasks w; trace := trace w |}.

Definition set_tasks (ts : list task) (w : world) : world :=
  {| comp := comp w; document := document w; functions := functions w; objects := objects w;
     promises := promises w; cells := cells w; listeners := listeners w;
     tasks := ts; trace := trace w |}.

Definition set_trace (tr : list action) (w : world) : world :=
  {| comp := comp w; document := document w; functions := functions w; objects := objects w;
     promises := promises w; cells := cells w; listeners := listeners w;
     tasks := tasks w; trace := tr |}.

Definition set_status (s : Z) (c : component) : component :=
  {| self := self c; env := env c; el := el c; status := s; refs := refs c |}.

Definition set_refs (r : gmap string node) (c : component) : component :=
  {| self := self c; env := env c; el := el c; status := status c; refs := r |}.

(** The component as a value ([this] of the bound handlers). *)
Definition this_component (w : world) : val := VObj (self (comp w)).

(** Status 2 is DESTROYED. *)
Definition DESTROYED : Z := 2.

Definition log (a : action) (w : world) : world :=
  set_trace (trace w ++ [a]) w.

(** *** Allocation: a new object gets an identity no object has yet. *)

Definition new_function (c : closure) (w : world) : val * world :=
  let f := fresh (dom (functions w)) in
  (VFun f, set_functions (<[f := c]> (functions w)) w).

Definition new_object (o : object) (w : world) : val * world :=
  let l := fresh (dom (objects w)) in
  (VObj l, set_objects (<[l := o]> (objects w)) w).

Definition new_promise (p : promise) (w : world) : nat * world :=
  let q := fresh (dom (promises w)) in
  (q, set_promises (<[q := p]> (promises w)) w).

Definition new_cell (n : Z) (w : world) : nat * world :=
  let c := fresh (dom (cells w)) in
  (c, set_cells (<[c := n]> (cells w)) w).

(** [{}] *)
Definition empty_object : object := {| proto := VNull; props := ∅ |}.

End Runtime.
Export Runtime.

(** ** Operations of the run time *)

Module Semantics.

(** *** Properties *)

(** [v[k]] through the prototype chain; [n] bounds the length of the chain. *)
Fixpoint lookup_chain (n : nat) (os : gmap nat object) (v : val) (k : string) : val :=
  match n with
  | O => VUndefined
  | S n' =>
      match v with
      | VObj l =>
          match os !! l with
          | Some o =>
              match props o !! k with
              | Some x => x
              | None => lookup_chain n' os (proto o) k
              end
          | None => VUndefined
          end
      | _ => VUndefined
      end
  end.

Definition get_property (v : val) (k : string) (w : world) : completion val :=
  match v with
  | VUndefined | VNull => Throw (VTypeError "Cannot read properties of null or undefined")
  | _ => Normal (lookup_chain (S (size (objects w))) (objects w) v k)
  end.

(** [o[k] = x] on a plain object: sets an own property. *)
Definition set_property (o : val) (k : string) (x : val) (w : world) : world :=
  match o with
  | VObj l =>
      match objects w !! l with
      | Some ob =>
          set_objects (<[l := {| proto := proto ob; props := <[k := x]> (props ob) |}]> (objects w)) w
      | None => w
      end
  | _ => w
  end.

(** [Object.create(p)]. *)
Definition Object_create (p : val) (w : world) : completion val * world :=
  match p with
  | VUndefined | VBool _ | VNum _ | VStr _ =>
      (Throw (VTypeError "Object prototype may only be an Object or null"), w)
  | _ =>
      let '(o, w') := new_object {| proto := p; props := ∅ |} w in
      (Normal o, w')
  end.

(** *** Event targets *)

(** A registration that is already there is not added twice. *)
Definition addEventListener (t : target) (type : string) (listener options : val)
    (w : world) : world :=
  if bool_decide ((t, type, listener) ∈ listeners w) then w
  else set_listeners (listeners w ++ [(t, type, listener)]) w.

Definition removeEventListener (t : target) (type : string) (listener options : val)
    (w : world) : world :=
  set_listeners (filter (λ r, r ≠ (t, type, listener)) (listeners w)) w.

Definition listeners_for (t : target) (type : string) (w : world) : list val :=
  omap (λ r : target * string * val,
          if bool_decide (r.1.1 = t ∧ r.1.2 = type) then Some r.2 else None)
       (listeners w).

(** *** Promises *)

(** A pending promise gets its final state; a settled one keeps it. *)
Definition settle (q : nat) (st : pstate) (w : world) : world :=
  match promises w !! q with
  | Some {| state := Pending |} =>
      set_promises (<[q := {| state := st; settleable := false |}]> (promises w)) w
  | _ => w
  end.

Definition park (t : task) (w : world) : world :=
  set_tasks (tasks w ++ [t]) w.

(** Resolving [q] with a promise makes [q] wait for it; with any other value
    it fulfils [q]. *)
Definition resolve (q : nat) (v : val) (w : world) : world :=
  match v with
  | VPromise _ => park {| awaited := v; continuation := Ret; outcome := q |} w
  | _ => settle q (Fulfilled v) w
  end.

(** Whether the awaited value is available, and as what. *)
Definition ready (t : task) (w : world) : option (completion val) :=
  match awaited t with
  | VPromise p =>
      match promises w !! p with
      | Some {| state := Fulfilled v |} => Some (Normal v)
      | Some {| state := Rejected e |} => Some (Throw e)
      | _ => None
      end
  | v => Some (Normal v)
  end.

(** A function defined outside the file is called: the call is recorded. *)
Definition call_external (f : nat) (b : behaviour) (this : val) (args : list val)
    (w : world) : completion val * world :=
  let w := log (Invoked f this args) w in
  match b with
  | Returns v => (Normal v, w)
  | Throws e => (Throw e, w)
  | Starts =>
      let '(p, w') := new_promise {| state := Pending; settleable := true |} w in
      (Normal (VPromise p), w')
  end.

Inductive progress :=
| Done (c : completion val)
| Parked (v : val) (k : val -> async val).

Section WithCall.

(** How function values are called (defined with the closures, below). *)
Variable call : val -> val -> list val -> world -> completion val * world.

(** Runs a body up to its first [await] or to its end. *)
Fixpoint run (body : async val) (w : world) : progress * world :=
  match body with
  | Ret a => (Done (Normal a), w)
  | Fail e => (Done (Throw e), w)
  | Status k => run (k (status (comp w))) w
  | Call fn this args k =>
      match call fn this args w with
      | (Normal v, w') => run (k v) w'
      | (Throw e, w') => (Done (Throw e), w')
      end
  | Await v k => (Parked v k, w)
  | NewPromise k =>
      let '(p, w') := new_promise {| state := Pending; settleable := false |} w in
      run (k (VPromise p)) w'
  end.

(** Runs the body whose caller holds promise [q] one stretch further. *)
Definition advance (q : nat) (body : async val) (w : world) : world :=
  match run body w with
  | (Done (Normal v), w') => resolve q v w'
  | (Done (Throw e), w') => settle q (Rejected e) w'
  | (Parked v k, w') => park {| awaited := v; continuation := k; outcome := q |} w'
  end.

(** Calling an [async] function: the caller always gets a promise. *)
Definition start (body : async val) (w : world) : completion val * world :=
  let '(q, w') := new_promise {| state := Pending; settleable := false |} w in
  (Normal (VPromise q), advance q body w').

(** A parked body continues once the value it awaits is there. *)
Definition resume (t : task) (w : world) : world :=
  match ready t w with
  | Some (Normal v) => advance (outcome t) (continuation t v) w
  | Some (Throw e) => settle (outcome t) (Rejected e) w
  | None => park t w
  end.

(** The listeners of one target run in the order they were added; what a
    listener returns or throws does not stop the others. *)
Fixpoint invoke_listeners (ls : list val) (this ev : val) (w : world) : world :=
  match ls with
  | [] => w
  | l :: ls' => invoke_listeners ls' this ev (call l this [ev] w).2
  end.

Definition deliver (t : target) (type : string) (ev : val) (w : world) : world :=
  invoke_listeners (listeners_for t type w) (VTarget t) ev w.

(** An event propagates from its target through the ancestors. *)
Fixpoint propagate (path : node) (type : string) (ev : val) (w : world) : world :=
  let w' := deliver (Element path) type ev w in
  match path with
  | [] => w'
  | _ :: parent => propagate parent type ev w'
  end.

End WithCall.

End Semantics.
Export Semantics.

(** ** The component framework *)

Module Owl.

(** What an effect returns: a cleanup function, or nothing. *)
Definition cleanup := option (world -> world).

Record effect_hook := {
  effect : list val -> world -> world * cleanup;
  computeDependencies : world -> list val;
}.

(** An effect of a mounted component: the dependencies it last ran with and
    the cleanup it returned. *)
Record mounted_effect := {
  hook : effect_hook;
  dependencies : list val;
  cleanup_fn : cleanup;
}.

Definition run_cleanup (c : cleanup) (w : world) : world :=
  match c with
  | Some f => f w
  | None => w
  end.

(** [newDeps.some((val, i) => val !== dependencies[i])] *)
Fixpoint some_changed (newDeps dependencies : list val) : bool :=
  match newDeps with
  | [] => false
  | v :: newDeps' =>
      strict_neq v (hd VUndefined dependencies) || some_changed newDeps' (tl dependencies)
  end.

(** Modelled from the spec: owl's [useEffect] is not in this file.  It is the
    "run side effect on dependency change" primitive: the effect runs when the
    component is mounted, with the dependencies computed then. *)
Definition onMounted (h : effect_hook) (w : world) : mounted_effect * world :=
  let deps := computeDependencies h w in
  let '(w', c) := effect h deps w in
  ({| hook := h; dependencies := deps; cleanup_fn := c |}, w').

(** Modelled from the spec: owl's [useEffect] at an update.  The effect runs
    again, after the cleanup of its last run, when some dependency differs
    from that of the last run. *)
Definition onPatched (m : mounted_effect) (w : world) : mounted_effect * world :=
  let newDeps := computeDependencies (hook m) w in
  if some_changed newDeps (dependencies m) then
    let w1 := run_cleanup (cleanup_fn m) w in
    let '(w2, c) := effect (hook m) newDeps w1 in
    ({| hook := hook m; dependencies := newDeps; cleanup_fn := c |}, w2)
  else (m, w).

(** Modelled from the spec: owl's [useEffect] at teardown runs the cleanup of
    the last run. *)
Definition onWillUnmount (m : mounted_effect) (w : world) : world :=
  run_cleanup (cleanup_fn m) w.

(** Modelled from the spec: the life of a component in owl (mount, update,
    teardown); every registered effect takes part, in the order of
    registration. *)
Fixpoint mount (hs : list effect_hook) (w : world) : list mounted_effect * world :=
  match hs with
  | [] => ([], w)
  | h :: hs' =>
      let '(m, w1) := onMounted h w in
      let '(ms, w2) := mount hs' w1 in
      (m :: ms, w2)
  end.

Fixpoint patch (ms : list mounted_effect) (w : world) : list mounted_effect * world :=
  match ms with
  | [] => ([], w)
  | m :: ms' =>
      let '(m', w1) := onPatched m w in
      let '(ms'', w2) := patch ms' w1 in
      (m' :: ms'', w2)
  end.

Fixpoint unmount (ms : list mounted_effect) (w : world) : world :=
  match ms with
  | [] => w
  | m :: ms' => unmount ms' (onWillUnmount m w)
  end.

(** *** Setup: hooks run here, registering effects on the component. *)

Record setup_state := {
  current : world;
  registered : list effect_hook;
}.

Definition setup (A : Type) : Type := setup_state -> completion A * setup_state.

Definition ret {A} (a : A) : setup A := fun s => (Normal a, s).

Definition throw {A} (e : val) : setup A := fun s => (Throw e, s).

Definition bind {A B} (m : setup A) (k : A -> setup B) : setup B :=
  fun s =>
    match m s with
    | (Normal a, s') => k a s'
    | (Throw e, s') => (Throw e, s')
    end.

(** An allocation or a store update during setup. *)
Definition lift {A} (f : world -> A * world) : setup A :=
  fun s =>
    let '(a, w) := f (current s) in
    (Normal a, {| current := w; registered := registered s |}).

Definition lift_completion {A} (f : world -> completion A * world) : setup A :=
  fun s =>
    let '(c, w) := f (current s) in
    (c, {| current := w; registered := registered s |}).

Definition read {A} (f : world -> A) : setup A :=
  fun s => (Normal (f (current s)), s).

(** Modelled from the spec: owl's "current component" accessor. *)
Definition useComponent : setup component := read comp.

(** Modelled from the spec: owl's [useEffect] registers the effect with the
    component under setup. *)
Definition useEffect (effect : list val -> world -> world * cleanup)
    (computeDependencies : world -> list val) : setup unit :=
  fun s =>
    (Normal tt,
     {| current := current s;
        registered := registered s ++
          [{| effect := effect; computeDependencies := computeDependencies |}] |}).

(** Modelled from the spec: owl's "stable element reference"; [ref.el] is the
    element that carries the reference name at the moment it is read, or
    [null]. *)
Definition useRef (refName : string) : setup string := ret refName.

Definition ref_el (ref : string) (w : world) : val :=
  match refs (comp w) !! ref with
  | Some n => VTarget (Element n)
  | None => VNull
  end.

End Owl.
Export Owl.

Declare Scope setup_scope.
Delimit Scope setup_scope with setup.
Notation "'let*' x ':=' m 'in' k" := (bind m (fun x => k))
  (at level 10, x name, m at level 100, k at level 200) : setup_scope.
Notation "'let*' ' p ':=' m 'in' k" := (bind m (fun x => match x with p => k end))
  (at level 10, p strict pattern, m at level 100, k at level 200) : setup_scope.
Notation "m ';;' k" := (bind m (fun _ => k))
  (at level 100, k at level 200, right associativity) : setup_scope.

(** ** The hooks *)

Module Hooks.

Local Open Scope setup_scope.

(** *** useAutofocus *)

Definition read_cell (c : nat) (w : world) : Z := default 0 (cells w !! c).

Definition set_element (n : node) (e : element) (w : world) : world :=
  set_document (fun n' => if decide (n' = n) then e else document w n') w.

Definition set_selectionEnd (n : node) (v : val) (w : world) : world :=
  let e := document w n in
  set_element n {| tagName := tagName e; value := value e;
                   selectionStart := selectionStart e; selectionEnd := v;
                   matches := matches e |} w.

Definition set_selectionStart (n : node) (v : val) (w : world) : world :=
  let e := document w n in
  set_element n {| tagName := tagName e; value := value e;
                   selectionStart := v; selectionEnd := selectionEnd e;
                   matches := matches e |} w.

(** The effect of useAutofocus, [(el) => { ... }]; it returns no cleanup.
    [ref.el] is an element or [null]. *)
Definition focus_effect (deps : list val) (w : world) : world * cleanup :=
  let el := argument 0 deps in
  if truthy el then
    match el with
    | VTarget (Element n) =>
        let w1 := log (Focused n) w in
        if bool_decide (tagName (document w1 n) ∈ ["INPUT"; "TEXTAREA"]) then
          let length := VNum (Z.of_nat (String.length (value (document w1 n)))) in
          let w2 := set_selectionEnd n length w1 in
          let w3 := set_selectionStart n length w2 in
          (w3, None)
        else (w1, None)
    | _ => (w, None)
    end
  else (w, None).

(** [forceFocusCount++] on the variable shared with the dependencies. *)
Definition focusOnUpdate (forceFocusCount : nat) (w : world) : world :=
  set_cells (<[forceFocusCount := increment (read_cell forceFocusCount w)]> (cells w)) w.

Definition useAutofocus (refName : option string) : setup (world -> world) :=
  let refName := default "autofocus" refName in
  let* comp := useComponent in
  if truthy (isSmall (env comp)) then ret (fun w => w)
  else
    let* ref := useRef refName in
    let* forceFocusCount := lift (new_cell 0) in
    useEffect focus_effect
              (fun w => [ref_el ref w; VNum (read_cell forceFocusCount w)]) ;;
    ret (focusOnUpdate forceFocusCount).

(** *** useBus *)

Definition useBus (bus : nat) (eventName : string) (callback : nat) : setup unit :=
  let* component := useComponent in
  useEffect
    (fun _ w =>
       let '(listener, w1) :=
         new_function (Bound (VFun callback) (VObj (self component))) w in
       let w2 := addEventListener (Bus bus) eventName listener VUndefined w1 in
       (w2, Some (removeEventListener (Bus bus) eventName listener VUndefined)))
    (fun _ => []).

(** *** useListener *)

(** The loop of [boundHandler], from [el] with [target] still unset: the
    value of [el] when the loop ends ([None] is [null]). *)
Fixpoint climb (w : world) (querySelector : string) (el : node) : option node :=
  if matches (document w el) querySelector then Some el
  else if bool_decide (el = Runtime.el (comp w)) then None
  else
    match el with
    | [] => None
    | _ :: parent => climb w querySelector parent
    end.

Section BoundHandler.

Variable call : val -> val -> list val -> world -> completion val * world.

(** [function (ev) { ... }] of useListener with a selector. *)
Definition boundHandler (querySelector : string) (handler : val) (ev : val)
    (w : world) : completion val * world :=
  match ev with
  | VEvent _ (Element target) =>
      match climb w querySelector target with
      | Some _ =>
          match call handler (this_component w) [ev] w with
          | (Normal _, w') => (Normal VUndefined, w')
          | (Throw e, w') => (Throw e, w')
          end
      | None => (Normal VUndefined, w)
      end
  | VEvent _ (Bus _) => (Throw (VTypeError "el.matches is not a function"), w)
  | VUndefined | VNull =>
      (Throw (VTypeError "Cannot read properties of null or undefined"), w)
  | _ => (Normal VUndefined, w)
  end.

End BoundHandler.

Definition useListener (eventName : string) (rest : list val) : setup unit :=
  let arguments := VStr eventName :: rest in
  let querySelector := argument 1 arguments in
  let handler := argument 2 arguments in
  let* options :=
    match argument 3 arguments with
    | VUndefined => lift (new_object empty_object)
    | o => ret o
    end in
  let* '(querySelector, handler, options) :=
    if negb (bool_decide (typeof (argument 1 arguments) = "string")) then
      let* options :=
        (if truthy (argument 2 arguments) then ret (argument 2 arguments)
         else lift (new_object empty_object)) in
      ret (VNull, argument 1 arguments, options)
    else ret (querySelector, handler, options) in
  if negb (bool_decide (typeof handler = "function")) then
    throw (VError "The handler must be a function")
  else
    let* comp := useComponent in
    let* boundHandler :=
      match querySelector with
      | VStr s =>
          if truthy querySelector then lift (new_function (Delegate s handler))
          else lift (new_function (Bound handler (VObj (self comp))))
      | _ => lift (new_function (Bound handler (VObj (self comp))))
      end in
    useEffect
      (fun _ w =>
         let target := Element (el (Runtime.comp w)) in
         let w1 := addEventListener target eventName boundHandler options w in
         (w1, Some (fun w' =>
                      removeEventListener (Element (el (Runtime.comp w'))) eventName
                                          boundHandler options w')))
      (fun _ => []).

(** *** useService *)

(** The body of the wrapper, [async (...args) => { ... }]. *)
Definition protected_call (caller fn : val) (args : list val) : async val :=
  Status (fun status =>
  if status =? DESTROYED then Fail (VError "Component is destroyed")
  else
    Call fn caller args (fun promised =>
    Await promised (fun result =>
    Status (fun status =>
    if status =? DESTROYED then NewPromise (fun never => Ret never)
    else Ret result)))).

(** [_protectMethod(component, caller, fn)], for the component of the world. *)
Definition _protectMethod (caller fn : val) (w : world) : val * world :=
  new_function (Protected caller fn) w.

(** Calling a function value with [this] and arguments.  [depth] is the room
    left on the call stack. *)
Fixpoint call_function (depth : nat) (f this : val) (args : list val) (w : world)
    : completion val * world :=
  match depth with
  | O => (Throw (VRangeError "Maximum call stack size exceeded"), w)
  | S d =>
      match f with
      | VFun id =>
          match functions w !! id with
          | Some (External b) => call_external id b this args w
          | Some (Bound target this') => call_function d target this' args w
          | Some (Delegate querySelector handler) =>
              boundHandler (call_function d) querySelector handler (argument 0 args) w
          | Some (Protected caller fn) =>
              start (call_function d) (protected_call caller fn args) w
          | None => (Normal VUndefined, w)
          end
      | _ => (Throw (VTypeError "not a function"), w)
      end
  end.

Section Services.

(** The metadata map imported from [@web/env]: for each guarded service,
    the names of its guarded methods. *)
Variable SERVICES_METADATA : gmap string (list string).

(** [for (let method of methods) { result[method] = ... }] *)
Fixpoint protect_methods (service result : val) (methods : list string) : setup unit :=
  match methods with
  | [] => ret tt
  | method :: methods' =>
      let* fn := lift_completion (fun w => (get_property service method w, w)) in
      let* protected := lift (_protectMethod service fn) in
      lift (fun w => (tt, set_property result method protected w)) ;;
      protect_methods service result methods'
  end.

Definition useService (serviceName : string) : setup val :=
  let* component := useComponent in
  let services := services (env component) in
  if negb (bool_decide (serviceName ∈ dom services)) then
    throw (VError ("Service " +:+ serviceName +:+ " is not available"))
  else
    let service := default VUndefined (services !! serviceName) in
    if bool_decide (serviceName ∈ dom SERVICES_METADATA) then
      if instanceof_Function service then lift (_protectMethod VNull service)
      else
        let methods := default [] (SERVICES_METADATA !! serviceName) in
        let* result := lift_completion (Object_create service) in
        protect_methods service result methods ;;
        ret result
    else ret service.

End Services.

(** *** What happens around the hooks *)

Inductive event :=
| Destroy                                    (* the component is destroyed *)
| Settled (p : nat) (c : completion val)     (* outside code resolves or rejects its promise *)
| Tick                                       (* the parked bodies get their turn *)
| Invoke (f this : val) (args : list val).   (* outside code calls a function *)

Definition destroy (w : world) : world :=
  set_comp (set_status DESTROYED (comp w)) w.

Definition settle_outside (p : nat) (c : completion val) (w : world) : world :=
  match promises w !! p with
  | Some {| state := Pending; settleable := true |} =>
      match c with
      | Normal v =>
          resolve p v
            (set_promises (<[p := {| state := Pending; settleable := false |}]> (promises w)) w)
      | Throw e => settle p (Rejected e) w
      end
  | _ => w
  end.

Definition tick (depth : nat) (w : world) : world :=
  fold_left (fun w' t => resume (call_function depth) t w') (tasks w) (set_tasks [] w).

Definition step (depth : nat) (e : event) (w : world) : world :=
  match e with
  | Destroy => destroy w
  | Settled p c => settle_outside p c w
  | Tick => tick depth w
  | Invoke f this args => (call_function depth f this args w).2
  end.

Definition steps (depth : nat) (es : list event) (w : world) : world :=
  fold_left (fun w' e => step depth e w') es w.

(** [bus.trigger(type)] and a DOM event fired on [target]. *)
Definition dispatch_bus (depth : nat) (bus : nat) (type : string) (w : world) : world :=
  deliver (call_function depth) (Bus bus) type (VEvent type (Bus bus)) w.

Definition dispatch_dom (depth : nat) (target : node) (type : string) (w : world) : world :=
  propagate (call_function depth) target type (VEvent type (Element target)) w.

End Hooks.
Export Hooks.

(** ** Vocabulary of the properties *)

Module Properties.

(** The handler argument as useListener resolves it: the second argument
    when that is not a string, otherwise the third. *)
Definition resolved_handler (rest : list val) : val :=
  if bool_decide (typeof (argument 0 rest) = "string") then argument 1 rest
  else argument 0 rest.

(** The elements from [el] up through its ancestors, stopping at [root]. *)
Fixpoint chain (root el : node) : list node :=
  el ::
  (if bool_decide (el = root) then []
   else
     match el with
     | [] => []
     | _ :: parent => chain root parent
     end).

(** [el] lies in the subtree of [root]. *)
Definition inside (root el : node) : bool := bool_decide (root `suffix_of` el).

Definition some_match (w : world) (querySelector : string) (els : list node) : bool :=
  existsb (fun n => matches (document w n) querySelector) els.

(** Moments in the life of a mounted component: an update by the framework,
    a call of the function a hook returned, an event fired on a bus or on a
    DOM element. *)
Inductive moment :=
| Update
| Force
| Fire (t : target) (type : string).

Definition fire (depth : nat) (t : target) (type : string) (w : world) : world :=
  match t with
  | Bus b => dispatch_bus depth b type w
  | Element n => dispatch_dom depth n type w
  end.

Definition live1 (depth : nat) (trigger : world -> world) (m : moment)
    (st : list mounted_effect * world) : list mounted_effect * world :=
  match m with
  | Update => patch st.1 st.2
  | Force => (st.1, trigger st.2)
  | Fire t type => (st.1, fire depth t type st.2)
  end.

Definition live (depth : nat) (trigger : world -> world) (ms : list moment)
    (st : list mounted_effect * world) : list mounted_effect * world :=
  fold_left (fun st' m => live1 depth trigger m st') ms st.

(** [wrapper] is a guarded method handed out by [useService serviceName]:
    the returned function itself when the service is a function, otherwise
    the property of the returned object for a method the metadata lists. *)
Definition guarded_method (SERVICES_METADATA : gmap string (list string))
    (serviceName : string) (s : setup_state) (wrapper : val) (s' : setup_state) : Prop :=
  ∃ service methods r,
    services (env (comp (current s))) !! serviceName = Some service ∧
    SERVICES_METADATA !! serviceName = Some methods ∧
    useService SERVICES_METADATA serviceName s = (Normal r, s') ∧
    ((instanceof_Function service = true ∧ wrapper = r) ∨
     (instanceof_Function service = false ∧
      ∃ method, method ∈ methods ∧
                get_property r method (current s') = Normal wrapper)).

(** The function object [f] is in [w'] what it is in [w]. *)
Definition same_function (f : val) (w w' : world) : Prop :=
  ∀ id, f = VFun id → functions w' !! id = functions w !! id.

(** A call that throws to its caller. *)
Definition raises {A} (r : completion A * world) : Prop :=
  ∃ e, r.1 = Throw e.

Definition promise_state (q : nat) (w : world) : option pstate :=
  state <$> promises w !! q.

(** A promise that has resolved or rejected. *)
Definition settled (q : nat) (w : world) : bool :=
  match promise_state q w with
  | Some (Fulfilled _) | Some (Rejected _) => true
  | _ => false
  end.

(** The effect hooks that the hooks of the file register. *)
Definition autofocus_hook (name : string) (c : nat) : effect_hook :=
  {| effect := focus_effect;
     computeDependencies := fun w => [ref_el name w; VNum (read_cell c w)] |}.

Definition bus_hook (self : nat) (bus : nat) (eventName : string) (callback : nat)
    : effect_hook :=
  {| effect := fun _ w =>
       let '(listener, w1) := new_function (Bound (VFun callback) (VObj self)) w in
       let w2 := addEventListener (Bus bus) eventName listener VUndefined w1 in
       (w2, Some (removeEventListener (Bus bus) eventName listener VUndefined));
     computeDependencies := fun _ => [] |}.

Definition listener_hook (eventName : string) (boundHandler options : val) : effect_hook :=
  {| effect := fun _ w =>
       let target := Element (el (comp w)) in
       let w1 := addEventListener target eventName boundHandler options w in
       (w1, Some (fun w' =>
                    removeEventListener (Element (el (comp w'))) eventName
                                        boundHandler options w'));
     computeDependencies := fun _ => [] |}.

(** The mounted effect [m] belongs to the autofocus hook and is up to date
    in [w]. *)
Definition autofocus_state (name : string) (c : nat) (m : mounted_effect) (w : world) : Prop :=
  hook m = autofocus_hook name c ∧
  cleanup_fn m = None ∧
  dependencies m = [ref_el name w; VNum (read_cell c w)].

(** [w'] has the component, the page, the function objects and the
    listeners of [w]. *)
Definition same_page (w w' : world) : Prop :=
  functions w' = functions w ∧
  listeners w' = listeners w ∧
  comp w' = comp w ∧
  document w' = document w ∧
  objects w' = objects w ∧
  cells w' = cells w.

(** No listener for events of [type] is registered in [w]. *)
Definition unheard (type : string) (w : world) : Prop :=
  ∀ r, r ∈ listeners w → r.1.2 ≠ type.

(** Every own property of the object is a wrapper made by
    [_protectMethod] for [service]. *)
Definition all_protected (service : val) (o : object) (w : world) : Prop :=
  ∀ k v, props o !! k = Some v →
         ∃ id fn, v = VFun id ∧ functions w !! id = Some (Protected service fn).

(** The rest of the wrapper's body, after its [await]. *)
Definition protected_rest (result : val) : async val :=
  Status (fun status =>
  if status =? DESTROYED then NewPromise (fun never => Ret never)
  else Ret result).

(** From [w] to [w'] the component is the same, the promises that existed
    and are not in [own] are what they were, and the bodies parked since
    belong to promises of [own] or to promises made since. *)
Definition frame (own : gset nat) (w w' : world) : Prop :=
  comp w' = comp w ∧
  (∀ x, x ∈ dom (promises w) → x ∉ own → promises w' !! x = promises w !! x) ∧
  dom (promises w) ⊆ dom (promises w') ∧
  ∃ new,
    tasks w' = (tasks w ++ new)%list ∧
    ∀ t, t ∈ new →
         outcome t ∈ dom (promises w') ∧
         (outcome t ∈ own ∨ outcome t ∉ dom (promises w)).

(** Nothing can settle promise [n]: it is pending, no code outside holds its
    resolving functions and no parked body will settle it. *)
Definition never (n : nat) (ts : list task) (w : world) : Prop :=
  promises w !! n = Some {| state := Pending; settleable := false |} ∧
  ∀ t, t ∈ ts → outcome t ≠ n.

(** A parked body that will settle [q]: the wrapper's body waiting for the
    service's promise [p], or [q] waiting for a promise that never settles. *)
Definition guarded_task (p q : nat) (ts : list task) (w : world) (t : task) : Prop :=
  (awaited t = VPromise p ∧ ∀ v, continuation t v = protected_rest v) ∨
  (∃ n, awaited t = VPromise n ∧ n ≠ p ∧ n ≠ q ∧ never n ts w).

(** The state of a guarded call between the start of the service's
    operation and the end of time: [q], the promise the caller holds, is
    pending; [p], the promise of the service, is pending or, with the
    component destroyed, fulfilled; of the parked bodies [ts] only the
    wrapper's own can settle [q]. *)
Definition stalls (p q : nat) (ts : list task) (w : world) : Prop :=
  promises w !! q = Some {| state := Pending; settleable := false |} ∧
  ((promises w !! p = Some {| state := Pending; settleable := true |}) ∨
   (∃ v, promises w !! p = Some {| state := Fulfilled v; settleable := false |} ∧
         status (comp w) = DESTROYED)) ∧
  p ≠ q ∧
  (∀ t, t ∈ ts → outcome t ∈ dom (promises w)) ∧
  (∀ t, t ∈ ts → outcome t ≠ p) ∧
  (∀ t, t ∈ ts → outcome t = q → guarded_task p q ts w t).

(** The service fulfils its promise with a plain value, and only once the
    component is destroyed. *)
Definition fulfils_after_destroy (p : nat) (e : event) (w : world) : Prop :=
  ∀ c, e = Settled p c →
       status (comp w) = DESTROYED ∧ ∃ v, c = Normal v ∧ ∀ x, v ≠ VPromise x.

Definition fulfils (p : nat) (e : event) : Prop :=
  ∀ c, e = Settled p c → ∃ v, c = Normal v ∧ ∀ x, v ≠ VPromise x.

Definition leaves (p : nat) (e : event) : Prop :=
  ∀ c, e ≠ Settled p c.

(** What the wrapper guards is a function from outside the file that starts
    an asynchronous operation. *)
Definition guards_operation (wrapper : val) (w : world) : Prop :=
  ∀ id caller fn,
    wrapper = VFun id →
    functions w !! id = Some (Protected caller fn) →
    ∃ g, fn = VFun g ∧ functions w !! g = Some (External Starts).

(** No parked body belongs to a promise that does not exist. *)
Definition tasks_known (w : world) : Prop :=
  ∀ t, t ∈ tasks w → outcome t ∈ dom (promises w).

(** [el] and all its ancestors, up to the document element. *)
Fixpoint ancestors (el : node) : list node :=
  el ::
  match el with
  | [] => []
  | _ :: parent => ancestors parent
  end.

(** Every function object registered as a listener exists. *)
Definition listeners_allocated (w : world) : Prop :=
  ∀ t type f, (t, type, VFun f) ∈ listeners w → f ∈ dom (functions w).

(** The read [service[k]] is decided by the service object itself: [k] is an
    own property, or the object has no prototype to ask. *)
Definition reads_directly (o : object) (k : string) : Prop :=
  is_Some (props o !! k) ∨ proto o = VNull.

(** From [w] to [w'] only function objects and plain objects were made or
    changed. *)
Definition only_heap (w w' : world) : Prop :=
  comp w' = comp w ∧
  document w' = document w ∧
  promises w' = promises w ∧
  cells w' = cells w ∧
  listeners w' = listeners w ∧
  tasks w' = tasks w ∧
  trace w' = trace w.

(** What the wrapper guards is a function from outside the file that
    behaves as [b]. *)
Definition guards_external (b : behaviour) (wrapper : val) (w : world) : Prop :=
  ∀ id caller fn,
    wrapper = VFun id →
    functions w !! id = Some (Protected caller fn) →
    ∃ g, fn = VFun g ∧ functions w !! g = Some (External b).

End Properties.
Export Properties.

(** ** A page for the examples *)

Module Example.

Definition div : element :=
  {| tagName := "DIV"; value := ""; selectionStart := VNull; selectionEnd := VNull;
     matches := fun _ => false |}.

Definition button : element :=
  {| tagName := "BUTTON"; value := ""; selectionStart := VNull; selectionEnd := VNull;
     matches := fun s => bool_decide (s = "button") |}.

Definition input : element :=
  {| tagName := "INPUT"; value := "hello"; selectionStart := VNum 0;
     selectionEnd := VNum 0; matches := fun s => bool_decide (s = "input") |}.

(** The component's root is [[0]]; it holds a button at [[1; 0]] and an
    input at [[2; 0]]; everything else is a [div]. *)
Definition page (n : node) : element :=
  if bool_decide (n = [1; 0]%nat) then button
  else if bool_decide (n = [2; 0]%nat) then input
  else div.

(** Function 0 starts an asynchronous operation, functions 1 and 2 return
    at once.  Service "rpc" is function 0, service "orm" an object with the
    method "call", service "title" an object without guarded methods. *)
Definition desktop : component :=
  {| self := 7;
     env := {| isSmall := VBool false;
               services := {[ "rpc" := VFun 0; "orm" := VObj 0; "title" := VObj 1 ]} |};
     el := [0%nat];
     status := 1;
     refs := {[ "autofocus" := [2; 0]%nat ]} |}.

Definition mobile : component :=
  {| self := 7;
     env := {| isSmall := VBool true; services := ∅ |};
     el := [0%nat];
     status := 1;
     refs := {[ "autofocus" := [2; 0]%nat ]} |}.

Definition world_of (c : component) : world :=
  {| comp := c;
     document := page;
     functions := {[ 0%nat := External Starts;
                     1%nat := External (Returns (VNum 5));
                     2%nat := External (Returns VUndefined) ]};
     objects := {[ 0%nat := {| proto := VNull; props := {[ "call" := VFun 0 ]} |};
                   1%nat := empty_object ]};
     promises := ∅;
     cells := ∅;
     listeners := [];
     tasks := [];
     trace := [] |}.

Definition at_setup (c : component) : setup_state :=
  {| current := world_of c; registered := [] |}.

Definition METADATA : gmap string (list string) :=
  {[ "rpc" := []; "orm" := ["call"] ]}.

(** A setup where guarded names go wrong: the metadata lists a method
    "read" that the service "orm" does not have, and guards "version", which
    is a number. *)
Definition careless : component :=
  {| self := 7;
     env := {| isSmall := VBool false;
               services := {[ "orm" := VObj 0; "version" := VNum 15 ]} |};
     el := [0%nat];
     status := 1;
     refs := ∅ |}.

Definition CARELESS_METADATA : gmap string (list string) :=
  {[ "orm" := ["call"; "read"]; "version" := [] ]}.

(** Function 3 throws as soon as it is called; service "mail" is that
    function. *)
Definition failing : component :=
  {| self := 7;
     env := {| isSmall := VBool false; services := {[ "mail" := VFun 3 ]} |};
     el := [0%nat];
     status := 1;
     refs := ∅ |}.

Definition failing_world : world :=
  set_functions (<[3%nat := External (Throws (VError "offline"))]>
                   (functions (world_of failing))) (world_of failing).

Definition FAILING_METADATA : gmap string (list string) := {[ "mail" := [] ]}.

End Example.

(** * Properties of the hooks *)

Local Open Scope setup_scope.

(** ** useListener: the handler check *)

Lemma argument_cons (i : nat) (v : val) (l : list val) :
  argument (S i) (v :: l) = argument i l.
Proof. reflexivity. Qed.

(** C5: when the resolved handler of a call to [useListener] is not a
    function, the call throws "The handler must be a function"; no effect is
    registered on the component, and the listeners and functions of the page
    are what they were. *)
Theorem useListener_handler_not_function (eventName : string) (rest : list val)
    (s : setup_state) :
  typeof (resolved_handler rest) ≠ "function" →
  ∃ s', useListener eventName rest s
        = (Throw (VError "The handler must be a function"), s') ∧
        registered s' = registered s ∧
        listeners (current s') = listeners (current s) ∧
        functions (current s') = functions (current s) ∧
        trace (current s') = trace (current s).
Proof.
  intros Hnot. unfold resolved_handler in Hnot.
  unfold useListener. rewrite !argument_cons.
  unfold bind at 1.
  destruct (argument 2 rest) eqn:Hopt;
    (unfold lift, ret, new_object; cbn [fst snd];
     unfold bind at 1;
     destruct (bool_decide (typeof (argument 0 rest) = "string")) eqn:Hstr;
     cbn [negb];
     [ unfold ret; cbn;
       rewrite bool_decide_eq_false_2 by exact Hnot; cbn;
       eexists; split; [reflexivity | cbn; auto]
     | unfold bind at 1;
       destruct (truthy (argument 1 rest));
       unfold lift, ret, new_object; cbn;
       rewrite bool_decide_eq_false_2 by exact Hnot; cbn;
       eexists; (split; [reflexivity | cbn; auto]) ]).
Qed.

Lemma useListener_handler_not_function_witness :
  ∃ s', useListener "click" [VStr "button"; VNum 2] (Example.at_setup Example.desktop)
        = (Throw (VError "The handler must be a function"), s') ∧
        registered s' = registered (Example.at_setup Example.desktop) ∧
        listeners (current s') = listeners (current (Example.at_setup Example.desktop)) ∧
        functions (current s') = functions (current (Example.at_setup Example.desktop)) ∧
        trace (current s') = trace (current (Example.at_setup Example.desktop)).
Proof.
  apply (useListener_handler_not_function "click" [VStr "button"; VNum 2]).
  vm_compute. discriminate.
Defined.

(** ** useService: lookup *)





(** ** useAutofocus *)

(** C9: in a mobile context [useAutofocus] leaves the state of the setup
    untouched (it registers no effect) and returns a function that changes
    nothing, however often it is called.  A component with no other hook
    then goes through mount, updates, calls of the returned function and
    teardown without any change of the world: no element is focused. *)
Theorem useAutofocus_mobile (refName : option string) (s : setup_state) :
  truthy (isSmall (env (comp (current s)))) = true →
  ∃ trigger,
    useAutofocus refName s = (Normal trigger, s) ∧
    (∀ (n : nat) (w : world), Nat.iter n trigger w = w) ∧
    (registered s = [] →
     ∀ (depth : nat) (w : world) (ms : list moment),
       (∀ m, m ∈ ms → m = Update ∨ m = Force) →
       let st := live depth trigger ms (mount (registered s) w) in
       st.2 = w ∧ unmount st.1 st.2 = w).
Proof.
  intros Hsmall. exists (fun w => w). split; [| split].
  - unfold useAutofocus, useComponent, read, bind. rewrite Hsmall. reflexivity.
  - intros n w. induction n as [| n IH]; [reflexivity | exact IH].
  - intros Hnone depth w ms Hms. rewrite Hnone. cbn [mount].
    assert (Hlive : live depth (fun w0 : world => w0) ms ([], w) = ([], w)).
    { induction ms as [| m ms IH]; [reflexivity |].
      unfold live. cbn [fold_left].
      destruct (Hms m) as [-> | ->]; [left | | ]; cbn [live1 patch fst snd];
        apply IH; intros m' Hm'; apply Hms; right; exact Hm'. }
    cbn zeta. rewrite Hlive. split; reflexivity.
Qed.

Lemma useAutofocus_mobile_witness :
  ∃ trigger,
    useAutofocus None (Example.at_setup Example.mobile)
    = (Normal trigger, Example.at_setup Example.mobile) ∧
    (∀ (n : nat) (w : world), Nat.iter n trigger w = w) ∧
    (registered (Example.at_setup Example.mobile) = [] →
     ∀ (depth : nat) (w : world) (ms : list moment),
       (∀ m, m ∈ ms → m = Update ∨ m = Force) →
       let st := live depth trigger ms
                   (mount (registered (Example.at_setup Example.mobile)) w) in
       st.2 = w ∧ unmount st.1 st.2 = w).
Proof.
  apply (useAutofocus_mobile None (Example.at_setup Example.mobile)).
  reflexivity.
Defined.

Lemma useAutofocus_desktop (refName : option string) (s : setup_state) :
  truthy (isSmall (env (comp (current s)))) = false →
  useAutofocus refName s
  = (Normal (focusOnUpdate (fresh (dom (cells (current s))))),
     {| current := set_cells (<[fresh (dom (cells (current s))) := 0]> (cells (current s)))
                             (current s);
        registered := registered s ++
          [autofocus_hook (default "autofocus" refName) (fresh (dom (cells (current s))))] |}).
Proof.
  intros Hsmall. unfold useAutofocus, useComponent, read, bind.
  rewrite Hsmall. reflexivity.
Qed.

Lemma focus_effect_element (el : node) (deps : list val) (w : world) :
  focus_effect (VTarget (Element el) :: deps) w
  = (if bool_decide (tagName (document w el) ∈ ["INPUT"; "TEXTAREA"]) then
       let length := VNum (Z.of_nat (String.length (value (document w el)))) in
       set_selectionStart el length (set_selectionEnd el length (log (Focused el) w))
     else log (Focused el) w,
     None).
Proof.
  unfold focus_effect. cbn [argument nth truthy].
  cbn [log set_trace document].
  destruct (bool_decide (tagName (document w el) ∈ ["INPUT"; "TEXTAREA"])); reflexivity.
Qed.



(** The focus effect only touches the trace and the element it focuses. *)
Lemma focus_effect_frame (el : node) (deps : list val) (w : world) :
  let w' := (focus_effect (VTarget (Element el) :: deps) w).1 in
  trace w' = (trace w ++ [Focused el])%list ∧ cells w' = cells w ∧ comp w' = comp w.
Proof.
  cbn zeta. rewrite focus_effect_element. cbn [fst].
  destruct (bool_decide (tagName (document w el) ∈ ["INPUT"; "TEXTAREA"]));
    repeat split; reflexivity.
Qed.

Lemma focus_effect_cleanup (deps : list val) (w : world) :
  (focus_effect deps w).2 = None.
Proof.
  unfold focus_effect. destruct (truthy (argument 0 deps)); [| reflexivity].
  destruct (argument 0 deps) as [| | | | | | | | [n | b] | | | |]; try reflexivity.
  destruct (bool_decide _); reflexivity.
Qed.

Lemma read_cell_focusOnUpdate (c : nat) (w : world) :
  read_cell c (focusOnUpdate c w) = increment (read_cell c w).
Proof.
  unfold read_cell at 1, focusOnUpdate. cbn [cells set_cells].
  rewrite lookup_insert_eq. reflexivity.
Qed.

Lemma increment_changes (n : Z) : n < 2 ^ 53 → increment n = n + 1.
Proof.
  intros Hn. unfold increment.
  destruct (Z.ltb_spec n (2 ^ 53)); [reflexivity | lia].
Qed.

Lemma ref_el_element (name : string) (el : node) (w : world) :
  refs (comp w) !! name = Some el → ref_el name w = VTarget (Element el).
Proof. intros Href. unfold ref_el. rewrite Href. reflexivity. Qed.

Lemma autofocus_mounted (name : string) (c : nat) (el : node) (w : world) :
  refs (comp w) !! name = Some el →
  let st := onMounted (autofocus_hook name c) w in
  autofocus_state name c st.1 st.2 ∧
  trace st.2 = (trace w ++ [Focused el])%list ∧
  read_cell c st.2 = read_cell c w ∧
  comp st.2 = comp w.
Proof.
  intros Href. cbn zeta. unfold onMounted.
  cbn [autofocus_hook computeDependencies effect].
  rewrite (ref_el_element name el w Href).
  pose proof (focus_effect_frame el [VNum (read_cell c w)] w) as (Htr & Hcells & Hcomp).
  pose proof (focus_effect_cleanup [VTarget (Element el); VNum (read_cell c w)] w) as Hcl.
  destruct (focus_effect [VTarget (Element el); VNum (read_cell c w)] w) as [w' cl].
  cbn [fst snd] in *. subst cl.
  assert (Hread : read_cell c w' = read_cell c w)
    by (unfold read_cell; rewrite Hcells; reflexivity).
  unfold autofocus_state. cbn [hook cleanup_fn dependencies].
  rewrite Hread, (ref_el_element name el w') by (rewrite Hcomp; exact Href).
  auto.
Qed.

Lemma autofocus_forced (name : string) (c : nat) (el : node) (m : mounted_effect)
    (w : world) :
  autofocus_state name c m w →
  refs (comp w) !! name = Some el →
  read_cell c w < 2 ^ 53 →
  let st := onPatched m (focusOnUpdate c w) in
  autofocus_state name c st.1 st.2 ∧
  trace st.2 = (trace w ++ [Focused el])%list ∧
  read_cell c st.2 = read_cell c w + 1 ∧
  comp st.2 = comp w.
Proof.
  intros (Hhook & Hclean & Hdeps) Href Hcount. cbn zeta. unfold onPatched.
  rewrite Hhook, Hdeps, Hclean.
  cbn [autofocus_hook computeDependencies effect run_cleanup].
  rewrite read_cell_focusOnUpdate, increment_changes by exact Hcount.
  rewrite (ref_el_element name el w Href).
  rewrite (ref_el_element name el (focusOnUpdate c w)) by exact Href.
  assert (Hch : some_changed [VTarget (Element el); VNum (read_cell c w + 1)]
                             [VTarget (Element el); VNum (read_cell c w)] = true).
  { cbn [some_changed hd tl]. unfold strict_neq.
    rewrite (bool_decide_eq_false_2 (VTarget (Element el) ≠ VTarget (Element el)))
      by (intros H; apply H; reflexivity).
    rewrite bool_decide_eq_true_2; [reflexivity |].
    intros Heq. injection Heq. lia. }
  rewrite Hch.
  pose proof (focus_effect_frame el [VNum (read_cell c w + 1)] (focusOnUpdate c w))
    as (Htr & Hcells & Hcomp).
  pose proof (focus_effect_cleanup [VTarget (Element el); VNum (read_cell c w + 1)]
                                   (focusOnUpdate c w)) as Hcl.
  destruct (focus_effect [VTarget (Element el); VNum (read_cell c w + 1)]
                         (focusOnUpdate c w)) as [w' cl].
  cbn [fst snd] in *. subst cl.
  assert (Hread : read_cell c w' = read_cell c w + 1).
  { unfold read_cell at 1. rewrite Hcells.
    change (default 0 (cells (focusOnUpdate c w) !! c))
      with (read_cell c (focusOnUpdate c w)).
    rewrite read_cell_focusOnUpdate. apply increment_changes, Hcount. }
  unfold autofocus_state. cbn [hook cleanup_fn dependencies].
  rewrite Hread, (ref_el_element name el w') by (rewrite Hcomp; exact Href).
  auto.
Qed.

Lemma autofocus_unforced (name : string) (c : nat) (m : mounted_effect) (w : world) :
  autofocus_state name c m w → onPatched m w = (m, w).
Proof.
  intros (Hhook & Hclean & Hdeps). unfold onPatched.
  rewrite Hhook, Hdeps. cbn [autofocus_hook computeDependencies some_changed hd tl].
  unfold strict_neq.
  rewrite !bool_decide_eq_false_2 by (intros H; apply H; reflexivity).
  reflexivity.
Qed.

(** C7: outside a mobile context the function that [useAutofocus] returns
    increments the count that is the second dependency of the focus effect.
    While the count is below 2^53 (where a JavaScript number still takes an
    increment) each call changes the dependency values, so the next update
    runs the effect again and focuses the referenced element although the
    reference is the same; without the call the update does nothing.  From
    setup on: mount, call, update, call, update focus the element three
    times. *)
Theorem useAutofocus_trigger_refocuses (refName : option string) (s : setup_state) :
  truthy (isSmall (env (comp (current s)))) = false →
  ∃ trigger h s' forceFocusCount,
    useAutofocus refName s = (Normal trigger, s') ∧
    registered s' = (registered s ++ [h])%list ∧
    read_cell forceFocusCount (current s') = 0 ∧
    (∀ w, computeDependencies h w
          = [ref_el (default "autofocus" refName) w; VNum (read_cell forceFocusCount w)]) ∧
    (∀ w, read_cell forceFocusCount w < 2 ^ 53 →
          read_cell forceFocusCount (trigger w) = read_cell forceFocusCount w + 1 ∧
          some_changed (computeDependencies h (trigger w)) (computeDependencies h w)
          = true) ∧
    (∀ w m el,
        hook m = h → cleanup_fn m = None →
        dependencies m = computeDependencies h w →
        refs (comp w) !! default "autofocus" refName = Some el →
        read_cell forceFocusCount w < 2 ^ 53 →
        trace (onPatched m (trigger w)).2 = (trace w ++ [Focused el])%list ∧
        onPatched m w = (m, w)) ∧
    (∀ el,
        refs (comp (current s)) !! default "autofocus" refName = Some el →
        let st0 := onMounted h (current s') in
        let st1 := onPatched st0.1 (trigger st0.2) in
        let st2 := onPatched st1.1 (trigger st1.2) in
        trace st2.2 = (trace (current s) ++ [Focused el; Focused el; Focused el])%list).
Proof.
  intros Hsmall.
  set (name := default "autofocus" refName).
  set (c := fresh (dom (cells (current s)))).
  exists (focusOnUpdate c), (autofocus_hook name c).
  eexists. exists c.
  split; [apply (useAutofocus_desktop refName s Hsmall) |].
  split; [reflexivity |].
  assert (Hzero : read_cell c (set_cells (<[c := 0]> (cells (current s))) (current s)) = 0).
  { unfold read_cell. cbn [cells set_cells]. rewrite lookup_insert_eq. reflexivity. }
  split; [exact Hzero |]. split; [reflexivity |]. split; [| split].
  - intros w Hcount. rewrite read_cell_focusOnUpdate, increment_changes by exact Hcount.
    split; [reflexivity |].
    cbn [autofocus_hook computeDependencies some_changed hd tl].
    rewrite read_cell_focusOnUpdate, increment_changes by exact Hcount.
    unfold strict_neq.
    rewrite (bool_decide_eq_true_2 (VNum (read_cell c w + 1) ≠ VNum (read_cell c w)))
      by (intros Heq; injection Heq; lia).
    apply orb_true_r.
  - intros w m el Hhook Hclean Hdeps Href Hcount.
    assert (Hst : autofocus_state name c m w) by (repeat split; assumption).
    split; [apply (autofocus_forced name c el m w Hst Href Hcount) |].
    apply (autofocus_unforced name c m w Hst).
  - intros el Href. cbn zeta. cbn [current].
    set (w0 := set_cells (<[c := 0]> (cells (current s))) (current s)) in *.
    assert (Href0 : refs (comp w0) !! name = Some el) by exact Href.
    destruct (autofocus_mounted name c el w0 Href0) as (Hst0 & Htr0 & Hrd0 & Hc0).
    assert (Href1 : refs (comp (onMounted (autofocus_hook name c) w0).2) !! name = Some el)
      by (rewrite Hc0; exact Href0).
    assert (Hlt1 : read_cell c (onMounted (autofocus_hook name c) w0).2 < 2 ^ 53)
      by (rewrite Hrd0, Hzero; reflexivity).
    destruct (autofocus_forced name c el _ _ Hst0 Href1 Hlt1) as (Hst1 & Htr1 & Hrd1 & Hc1).
    set (st1 := onPatched (onMounted (autofocus_hook name c) w0).1
                          (focusOnUpdate c (onMounted (autofocus_hook name c) w0).2)) in *.
    assert (Href2 : refs (comp st1.2) !! name = Some el) by (rewrite Hc1; exact Href1).
    assert (Hlt2 : read_cell c st1.2 < 2 ^ 53)
      by (rewrite Hrd1, Hrd0, Hzero; reflexivity).
    destruct (autofocus_forced name c el _ _ Hst1 Href2 Hlt2) as (_ & Htr2 & _ & _).
    transitivity (trace st1.2 ++ [Focused el])%list; [exact Htr2 |].
    rewrite Htr1, Htr0. rewrite <- !app_assoc. reflexivity.
Qed.

Lemma useAutofocus_trigger_refocuses_witness :
  ∃ trigger h s' forceFocusCount,
    useAutofocus None (Example.at_setup Example.desktop) = (Normal trigger, s') ∧
    registered s' = (registered (Example.at_setup Example.desktop) ++ [h])%list ∧
    read_cell forceFocusCount (current s') = 0 ∧
    (∀ w, computeDependencies h w
          = [ref_el (default "autofocus" None) w; VNum (read_cell forceFocusCount w)]) ∧
    (∀ w, read_cell forceFocusCount w < 2 ^ 53 →
          read_cell forceFocusCount (trigger w) = read_cell forceFocusCount w + 1 ∧
          some_changed (computeDependencies h (trigger w)) (computeDependencies h w)
          = true) ∧
    (∀ w m el,
        hook m = h → cleanup_fn m = None →
        dependencies m = computeDependencies h w →
        refs (comp w) !! default "autofocus" None = Some el →
        read_cell forceFocusCount w < 2 ^ 53 →
        trace (onPatched m (trigger w)).2 = (trace w ++ [Focused el])%list ∧
        onPatched m w = (m, w)) ∧
    (∀ el,
        refs (comp (current (Example.at_setup Example.desktop)))
          !! default "autofocus" None = Some el →
        let st0 := onMounted h (current s') in
        let st1 := onPatched st0.1 (trigger st0.2) in
        let st2 := onPatched st1.1 (trigger st1.2) in
        trace st2.2
        = (trace (current (Example.at_setup Example.desktop))
             ++ [Focused el; Focused el; Focused el])%list).
Proof.
  apply (useAutofocus_trigger_refocuses None (Example.at_setup Example.desktop)).
  reflexivity.
Defined.

(** ** Calls leave the page alone

    Calling a function value only adds to the trace, the promises and the
    parked bodies. *)

Lemma same_page_refl (w : world) : same_page w w.
Proof. repeat split. Qed.

Lemma same_page_trans (w1 w2 w3 : world) :
  same_page w1 w2 → same_page w2 w3 → same_page w1 w3.
Proof.
  intros (? & ? & ? & ? & ? & ?) (? & ? & ? & ? & ? & ?).
  repeat split; congruence.
Qed.

Lemma same_page_settle (q : nat) (st : pstate) (w : world) : same_page w (settle q st w).
Proof.
  unfold settle. destruct (promises w !! q) as [[[] ?] |]; repeat split.
Qed.

Lemma same_page_resolve (q : nat) (v : val) (w : world) : same_page w (resolve q v w).
Proof.
  unfold resolve. destruct v; try apply same_page_settle. repeat split.
Qed.

Lemma same_page_call_external (f : nat) (b : behaviour) (this : val) (args : list val)
    (w : world) :
  same_page w (call_external f b this args w).2.
Proof. destruct b; repeat split. Qed.

Section CallFrame.

Variable call : val → val → list val → world → completion val * world.
Hypothesis call_same_page : ∀ f this args w, same_page w (call f this args w).2.

Lemma same_page_run (body : async val) (w : world) : same_page w (run call body w).2.
Proof.
  revert w. induction body as [a | e | k IH | fn this args k IH | v k IH | k IH];
    intros w; cbn [run]; try apply same_page_refl.
  - apply IH.
  - pose proof (call_same_page fn this args w) as Hc.
    destruct (call fn this args w) as [[v | e] w']; cbn [snd] in *; [| exact Hc].
    eapply same_page_trans; [exact Hc | apply IH].
  - unfold new_promise. eapply same_page_trans; [| apply IH]. repeat split.
Qed.

Lemma same_page_advance (q : nat) (body : async val) (w : world) :
  same_page w (advance call q body w).
Proof.
  unfold advance. pose proof (same_page_run body w) as Hr.
  destruct (run call body w) as [[[v | e] | v k] w']; cbn [snd] in Hr;
    (eapply same_page_trans; [exact Hr |]).
  - apply same_page_resolve.
  - apply same_page_settle.
  - repeat split.
Qed.

Lemma same_page_start (body : async val) (w : world) :
  same_page w (start call body w).2.
Proof.
  unfold start, new_promise. cbn [snd].
  eapply same_page_trans; [| apply same_page_advance]. repeat split.
Qed.

Lemma same_page_boundHandler (querySelector : string) (handler ev : val) (w : world) :
  same_page w (boundHandler call querySelector handler ev w).2.
Proof.
  unfold boundHandler.
  destruct ev as [| | | | | | | | | type [target | b] | | |]; try apply same_page_refl.
  destruct (climb w querySelector target); [| apply same_page_refl].
  pose proof (call_same_page handler (this_component w) [VEvent type (Element target)] w)
    as Hc.
  destruct (call handler _ _ w) as [[v | e] w']; exact Hc.
Qed.

Lemma same_page_invoke_listeners (ls : list val) (this ev : val) (w : world) :
  same_page w (invoke_listeners call ls this ev w).
Proof.
  revert w. induction ls as [| l ls IH]; intros w; cbn [invoke_listeners].
  - apply same_page_refl.
  - eapply same_page_trans; [apply call_same_page | apply IH].
Qed.

Lemma same_page_propagate (path : node) (type : string) (ev : val) (w : world) :
  same_page w (propagate call path type ev w).
Proof.
  revert w. induction path as [| i parent IH]; intros w; cbn [propagate].
  - apply same_page_invoke_listeners.
  - eapply same_page_trans; [apply same_page_invoke_listeners | apply IH].
Qed.

End CallFrame.

Lemma same_page_call_function (depth : nat) (f this : val) (args : list val) (w : world) :
  same_page w (call_function depth f this args w).2.
Proof.
  revert f this args w. induction depth as [| d IH]; intros f this args w.
  - apply same_page_refl.
  - cbn [call_function]. destruct f; try apply same_page_refl.
    destruct (functions w !! f) as [[b | target this' | qs handler | caller fn] |].
    + apply same_page_call_external.
    + apply IH.
    + apply same_page_boundHandler, IH.
    + apply same_page_start, IH.
    + apply same_page_refl.
Qed.

Lemma same_page_fire (depth : nat) (t : target) (type : string) (w : world) :
  same_page w (fire depth t type w).
Proof.
  destruct t as [n | b]; cbn [fire].
  - apply same_page_propagate, same_page_call_function.
  - apply same_page_invoke_listeners, same_page_call_function.
Qed.

Lemma listeners_for_same_page (t : target) (type : string) (w w' : world) :
  same_page w w' → listeners_for t type w' = listeners_for t type w.
Proof. intros (_ & Hl & _). unfold listeners_for. rewrite Hl. reflexivity. Qed.

(** ** Effects without dependencies run once *)

Lemma patch_no_dependencies (ms : list mounted_effect) (w : world) :
  (∀ m, m ∈ ms → ∀ w', computeDependencies (hook m) w' = []) →
  patch ms w = (ms, w).
Proof.
  induction ms as [| m ms IH]; intros Hdeps; [reflexivity |].
  cbn [patch]. unfold onPatched.
  rewrite (Hdeps m) by (left). cbn [some_changed].
  rewrite IH; [reflexivity |].
  intros m' Hm'. apply Hdeps. right. exact Hm'.
Qed.

Lemma live_no_dependencies (depth : nat) (l : list moment) (ms : list mounted_effect)
    (w : world) :
  (∀ m, m ∈ ms → ∀ w', computeDependencies (hook m) w' = []) →
  ∃ w', live depth (fun w0 => w0) l (ms, w) = (ms, w') ∧ same_page w w'.
Proof.
  intros Hdeps. revert w. induction l as [| m l IH]; intros w.
  - exists w. split; [reflexivity | apply same_page_refl].
  - unfold live. cbn [fold_left]. fold (live depth (fun w0 : world => w0) l).
    destruct m as [| | t type]; cbn [live1 fst snd].
    + rewrite patch_no_dependencies by exact Hdeps. apply IH.
    + apply IH.
    + destruct (IH (fire depth t type w)) as (w' & Hlive & Hsame).
      exists w'. split; [exact Hlive |].
      eapply same_page_trans; [apply same_page_fire | exact Hsame].
Qed.

(** ** useBus *)

Lemma useBus_setup (bus : nat) (eventName : string) (callback : nat) (s : setup_state) :
  useBus bus eventName callback s
  = (Normal tt,
     {| current := current s;
        registered := registered s ++
          [bus_hook (self (comp (current s))) bus eventName callback] |}).
Proof. reflexivity. Qed.

Lemma listeners_for_app (t : target) (type : string) (w : world)
    (rs : list (target * string * val)) :
  listeners_for t type (set_listeners (listeners w ++ rs) w)
  = (listeners_for t type w
       ++ listeners_for t type (set_listeners rs w))%list.
Proof. unfold listeners_for. cbn [listeners set_listeners]. apply omap_app. Qed.

Lemma listeners_for_not_registered (t : target) (type : string) (l : val) (w : world) :
  listeners_for t type w = [] → (t, type, l) ∉ listeners w.
Proof.
  unfold listeners_for. intros Hnone Hin.
  induction (listeners w) as [| r rs IH]; [inversion Hin |].
  cbn [omap list_omap] in Hnone.
  apply elem_of_cons in Hin as [<- | Hin].
  - cbn [fst snd] in Hnone. rewrite bool_decide_eq_true_2 in Hnone by auto.
    discriminate.
  - destruct (bool_decide _); [discriminate | auto].
Qed.

Lemma listeners_for_filter (t : target) (type : string) (w : world)
    (P : target * string * val → Prop) `{∀ r, Decision (P r)} :
  listeners_for t type w = [] →
  listeners_for t type (set_listeners (filter P (listeners w)) w) = [].
Proof.
  unfold listeners_for. cbn [listeners set_listeners].
  induction (listeners w) as [| r rs IH]; [reflexivity |].
  cbn [omap list_omap]. intros Hnone.
  destruct (bool_decide (r.1.1 = t ∧ r.1.2 = type)) eqn:Hr; [discriminate |].
  rewrite filter_cons. destruct (decide (P r)); [| auto].
  cbn [omap list_omap]. rewrite Hr. auto.
Qed.

(** What an outside function adds to the trace. *)
Lemma trace_call_external (f : nat) (b : behaviour) (this : val) (args : list val)
    (w : world) :
  trace (call_external f b this args w).2 = (trace w ++ [Invoked f this args])%list.
Proof. destruct b; reflexivity. Qed.

Lemma bus_mounted (self bus : nat) (eventName : string) (callback : nat) (w : world) :
  listeners_for (Bus bus) eventName w = [] →
  mount [bus_hook self bus eventName callback] w
  = ([{| hook := bus_hook self bus eventName callback;
         dependencies := [];
         cleanup_fn := Some (removeEventListener (Bus bus) eventName
                               (VFun (fresh (dom (functions w)))) VUndefined) |}],
     set_listeners (listeners w ++ [(Bus bus, eventName, VFun (fresh (dom (functions w))))])
       (set_functions (<[fresh (dom (functions w)) := Bound (VFun callback) (VObj self)]>
                         (functions w)) w)).
Proof.
  intros Hnone. cbn [mount]. unfold onMounted.
  cbn [bus_hook computeDependencies effect]. unfold new_function, addEventListener.
  cbn [listeners set_functions].
  rewrite bool_decide_eq_false_2
    by (apply listeners_for_not_registered; exact Hnone).
  reflexivity.
Qed.

Lemma bus_dispatch (depth bus : nat) (eventName : string) (f callback : nat)
    (b : behaviour) (this : val) (w : world) :
  functions w !! f = Some (Bound (VFun callback) this) →
  functions w !! callback = Some (External b) →
  listeners_for (Bus bus) eventName w = [VFun f] →
  (2 ≤ depth)%nat →
  trace (dispatch_bus depth bus eventName w)
  = (trace w ++ [Invoked callback this [VEvent eventName (Bus bus)]])%list.
Proof.
  intros Hf Hcb Hls Hdepth.
  destruct depth as [| [| d]]; [lia | lia |].
  unfold dispatch_bus, deliver. rewrite Hls. cbn [invoke_listeners].
  cbn [call_function]. rewrite Hf, Hcb. apply trace_call_external.
Qed.

(** C4: a component whose setup calls [useBus bus eventName callback], with
    [callback] a function from outside the file and no other listener for
    the event on the bus.  At any moment after the mount (updates and events
    may have happened) a dispatch of [eventName] on the bus adds exactly one
    call to the trace: [callback], with the component as [this] and the
    event as argument.  Once the component is torn down the listener is
    gone, and at any later moment a dispatch leaves the world as it is. *)
Theorem useBus_listens_until_teardown (bus : nat) (eventName : string) (callback : nat)
    (b : behaviour) (s : setup_state) (depth : nat) :
  registered s = [] →
  functions (current s) !! callback = Some (External b) →
  listeners_for (Bus bus) eventName (current s) = [] →
  (2 ≤ depth)%nat →
  ∃ s',
    useBus bus eventName callback s = (Normal tt, s') ∧
    ∀ before : list moment,
      let st := live depth (fun w => w) before (mount (registered s') (current s')) in
      trace (dispatch_bus depth bus eventName st.2)
      = (trace st.2 ++ [Invoked callback (this_component (current s))
                                [VEvent eventName (Bus bus)]])%list ∧
      ∀ after : list moment,
        let st' := live depth (fun w => w) after ([], unmount st.1 st.2) in
        listeners_for (Bus bus) eventName st'.2 = [] ∧
        dispatch_bus depth bus eventName st'.2 = st'.2.
Proof.
  intros Hreg Hcb Hnone Hdepth.
  eexists. split; [apply useBus_setup |].
  intros before. cbn zeta. cbn [current registered]. rewrite Hreg. cbn [app].
  rewrite bus_mounted by exact Hnone.
  set (w := current s) in *.
  set (f := fresh (dom (functions w))).
  set (w2 := set_listeners _ _).
  set (m := {| hook := _; dependencies := _; cleanup_fn := _ |}).
  destruct (live_no_dependencies depth before [m] w2) as (w' & Hlive & Hsame).
  { intros m' Hm' w0. apply list_elem_of_singleton in Hm'. subst m'. reflexivity. }
  rewrite Hlive. cbn [fst snd].
  assert (Hfresh : functions w !! f = None).
  { apply not_elem_of_dom. apply is_fresh. }
  assert (Hls2 : listeners_for (Bus bus) eventName w2 = [VFun f]).
  { unfold w2.
    pose proof (listeners_for_app (Bus bus) eventName
                  (set_functions (<[f := Bound (VFun callback) (VObj (self (comp w)))]>
                                    (functions w)) w)
                  [(Bus bus, eventName, VFun f)]) as Happ.
    cbn [listeners set_functions] in Happ. rewrite Happ.
    unfold listeners_for at 1. cbn [listeners set_functions].
    fold (listeners_for (Bus bus) eventName w). rewrite Hnone.
    unfold listeners_for. cbn. rewrite bool_decide_eq_true_2 by auto. reflexivity. }
  destruct Hsame as (Hfun & Hlis & Hcomp & Hdoc & Hobj & Hcells).
  assert (Hls' : listeners_for (Bus bus) eventName w' = [VFun f]).
  { unfold listeners_for. rewrite Hlis. exact Hls2. }
  split.
  - apply (bus_dispatch depth bus eventName f callback b); try assumption.
    + rewrite Hfun. unfold w2. cbn [functions set_listeners set_functions].
      apply lookup_insert_eq.
    + rewrite Hfun. unfold w2. cbn [functions set_listeners set_functions].
      rewrite lookup_insert_ne by (intros ->; congruence). exact Hcb.
  - intros after. cbn [unmount onWillUnmount run_cleanup m cleanup_fn].
    set (w3 := removeEventListener (Bus bus) eventName (VFun f) VUndefined w').
    assert (Hls3 : listeners_for (Bus bus) eventName w3 = []).
    { unfold w3, removeEventListener, listeners_for. cbn [listeners set_listeners].
      rewrite Hlis. unfold w2. cbn [listeners set_listeners set_functions].
      rewrite filter_app, omap_app.
      pose proof (listeners_for_filter (Bus bus) eventName w
                    (λ r, r ≠ (Bus bus, eventName, VFun f)) Hnone) as Hfil.
      unfold listeners_for in Hfil. cbn [listeners set_listeners] in Hfil.
      rewrite Hfil. rewrite filter_cons, decide_False by (intros H; apply H; reflexivity).
      reflexivity. }
    destruct (live_no_dependencies depth after [] w3) as (w4 & Hlive4 & Hsame4).
    { intros m' Hm'. inversion Hm'. }
    rewrite Hlive4. cbn [snd].
    assert (Hls4 : listeners_for (Bus bus) eventName w4 = [])
      by (rewrite (listeners_for_same_page _ _ _ _ Hsame4); exact Hls3).
    split; [exact Hls4 |].
    unfold dispatch_bus, deliver. rewrite Hls4. reflexivity.
Qed.

Lemma useBus_listens_until_teardown_witness :
  ∃ s',
    useBus 3 "notify" 2 (Example.at_setup Example.desktop) = (Normal tt, s') ∧
    ∀ before : list moment,
      let st := live 2 (fun w => w) before (mount (registered s') (current s')) in
      trace (dispatch_bus 2 3 "notify" st.2)
      = (trace st.2 ++ [Invoked 2 (VObj 7) [VEvent "notify" (Bus 3)]])%list ∧
      ∀ after : list moment,
        let st' := live 2 (fun w => w) after ([], unmount st.1 st.2) in
        listeners_for (Bus 3) "notify" st'.2 = [] ∧
        dispatch_bus 2 3 "notify" st'.2 = st'.2.
Proof.
  apply (useBus_listens_until_teardown 3 "notify" 2 (Returns VUndefined)
           (Example.at_setup Example.desktop) 2).
  - reflexivity.
  - vm_compute. reflexivity.
  - reflexivity.
  - lia.
Defined.

(** ** useListener with a selector *)

(** The loop of [boundHandler] ends on an element exactly when an element of
    the chain matches. *)
Lemma climb_chain (w : world) (querySelector : string) (el : node) :
  is_Some (climb w querySelector el)
  ↔ some_match w querySelector (chain (Runtime.el (comp w)) el) = true.
Proof.
  assert (Hnone : is_Some (@None node) ↔ false = true).
  { split; [intros [x Hx]; discriminate Hx | intros Hx; discriminate Hx]. }
  unfold some_match.
  induction el as [| i parent IH]; cbn [climb chain existsb].
  - destruct (matches (document w []) querySelector); cbn [orb].
    + split; eauto.
    + case_bool_decide; cbn [existsb]; exact Hnone.
  - destruct (matches (document w (i :: parent)) querySelector); cbn [orb].
    + split; eauto.
    + case_bool_decide; cbn [existsb].
      * exact Hnone.
      * exact IH.
Qed.

Lemma some_match_same_page (w w' : world) (querySelector : string) (els : list node) :
  same_page w w' → some_match w' querySelector els = some_match w querySelector els.
Proof. intros (_ & _ & _ & Hdoc & _). unfold some_match. rewrite Hdoc. reflexivity. Qed.

Lemma useListener_with_selector (eventName querySelector : string) (handler : nat)
    (more : list val) (s : setup_state) :
  querySelector ≠ "" →
  ∃ options w1,
    useListener eventName (VStr querySelector :: VFun handler :: more) s
    = (Normal tt,
       {| current := w1;
          registered := registered s ++
            [listener_hook eventName (VFun (fresh (dom (functions (current s))))) options] |}) ∧
    functions w1
    = <[fresh (dom (functions (current s))) := Delegate querySelector (VFun handler)]>
        (functions (current s)) ∧
    listeners w1 = listeners (current s) ∧
    comp w1 = comp (current s) ∧
    document w1 = document (current s) ∧
    trace w1 = trace (current s).
Proof.
  intros Hsel.
  assert (Htruthy : truthy (VStr querySelector) = true).
  { cbn [truthy]. rewrite bool_decide_eq_false_2 by exact Hsel. reflexivity. }
  exists (match argument 0 more with
          | VUndefined => VObj (fresh (dom (objects (current s))))
          | o => o
          end).
  exists (set_functions
            (<[fresh (dom (functions (current s))) := Delegate querySelector (VFun handler)]>
               (functions (current s)))
            (match argument 0 more with
             | VUndefined =>
                 set_objects (<[fresh (dom (objects (current s))) := empty_object]>
                                (objects (current s))) (current s)
             | _ => current s
             end)).
  unfold useListener. rewrite !argument_cons.
  cbn [argument nth typeof]. fold (argument 0 more).
  destruct (argument 0 more) eqn:Hopt;
    (unfold bind, ret, lift, useComponent, read, useEffect, new_object, new_function;
     cbn -[truthy fresh bool_decide];
     rewrite (bool_decide_eq_true_2 ("string" = "string")) by reflexivity;
     cbn -[truthy fresh bool_decide];
     rewrite (bool_decide_eq_true_2 ("function" = "function")) by reflexivity;
     cbn -[truthy fresh bool_decide];
     rewrite Htruthy; cbn -[fresh];
     split; [reflexivity | repeat split]).
Qed.

Lemma listener_mounted (eventName : string) (boundHandler options : val) (w : world) :
  unheard eventName w →
  mount [listener_hook eventName boundHandler options] w
  = ([{| hook := listener_hook eventName boundHandler options;
         dependencies := [];
         cleanup_fn := Some (fun w' =>
                               removeEventListener (Element (el (comp w'))) eventName
                                                   boundHandler options w') |}],
     set_listeners (listeners w ++ [(Element (el (comp w)), eventName, boundHandler)]) w).
Proof.
  intros Hun. cbn [mount]. unfold onMounted.
  cbn [listener_hook computeDependencies effect]. unfold addEventListener.
  rewrite bool_decide_eq_false_2; [reflexivity |].
  intros Hin. apply (Hun _ Hin). reflexivity.
Qed.

Lemma listeners_for_unheard (t : target) (type : string) (w : world) :
  unheard type w → listeners_for t type w = [].
Proof.
  unfold unheard, listeners_for. induction (listeners w) as [| r rs IH]; intros Hun.
  - reflexivity.
  - cbn [omap list_omap]. rewrite bool_decide_eq_false_2.
    + apply IH. intros r' Hr'. apply Hun. right. exact Hr'.
    + intros [_ Htype]. apply (Hun r); [left | exact Htype].
Qed.

Section Delegation.

Variables (depth : nat) (eventName querySelector : string) (f handler : nat)
          (b : behaviour) (page : world).

Hypothesis depth_enough : (2 ≤ depth)%nat.
Hypothesis bound : functions page !! f = Some (Delegate querySelector (VFun handler)).
Hypothesis outside : functions page !! handler = Some (External b).
Hypothesis registered_on_root :
  ∀ p, listeners_for (Element p) eventName page
       = if bool_decide (p = el (comp page)) then [VFun f] else [].

(** The listener runs: the handler is called when the loop finds a
    match. *)
Lemma delegate_call (this : val) (target : node) (w : world) :
  same_page page w →
  trace (call_function depth (VFun f) this [VEvent eventName (Element target)] w).2
  = (trace w ++
       if some_match page querySelector (chain (el (comp page)) target)
       then [Invoked handler (this_component page) [VEvent eventName (Element target)]]
       else [])%list.
Proof.
  intros Hsame. pose proof Hsame as (Hfun & _ & Hcomp & _).
  destruct depth as [| [| d]]; [lia | lia |].
  cbn [call_function]. rewrite Hfun, bound. cbn [argument nth boundHandler].
  pose proof (climb_chain w querySelector target) as Hclimb.
  rewrite (some_match_same_page page w) in Hclimb by exact Hsame.
  rewrite Hcomp in Hclimb.
  destruct (climb w querySelector target) as [found |].
  - rewrite (proj1 Hclimb) by eauto.
    rewrite Hfun, outside.
    pose proof (trace_call_external handler b (this_component w)
                  [VEvent eventName (Element target)] w) as Htr.
    destruct (call_external handler b (this_component w)
                [VEvent eventName (Element target)] w) as [[v | e] w'];
      cbn [snd] in *; rewrite Htr; unfold this_component; rewrite Hcomp; reflexivity.
  - destruct (some_match page querySelector (chain (el (comp page)) target)).
    + destruct (proj2 Hclimb eq_refl) as [x Hx]. discriminate Hx.
    + cbn [snd]. rewrite app_nil_r. reflexivity.
Qed.

(** The event on its way up: the listener on the root runs if the root is
    on the way. *)
Lemma delegate_propagate (target path : node) (w : world) :
  same_page page w →
  trace (propagate (call_function depth) path eventName
                   (VEvent eventName (Element target)) w)
  = (trace w ++
       if inside (el (comp page)) path &&
          some_match page querySelector (chain (el (comp page)) target)
       then [Invoked handler (this_component page) [VEvent eventName (Element target)]]
       else [])%list.
Proof.
  revert w. induction path as [| i parent IH]; intros w Hsame.
  - cbn [propagate]. unfold deliver.
    rewrite (listeners_for_same_page _ _ _ _ Hsame), registered_on_root.
    unfold inside. case_bool_decide as Hroot.
    + rewrite bool_decide_eq_true_2 by (rewrite <- Hroot; reflexivity).
      cbn [invoke_listeners andb]. apply delegate_call. exact Hsame.
    + rewrite bool_decide_eq_false_2.
      * cbn [invoke_listeners andb]. rewrite app_nil_r. reflexivity.
      * intros Hsuf. apply suffix_nil_inv in Hsuf. congruence.
  - cbn [propagate]. unfold deliver.
    rewrite (listeners_for_same_page _ _ _ _ Hsame), registered_on_root.
    unfold inside. case_bool_decide as Hroot.
    + rewrite (bool_decide_eq_true_2 (el (comp page) `suffix_of` i :: parent))
        by (rewrite <- Hroot; reflexivity).
      cbn [invoke_listeners andb].
      rewrite IH.
      * unfold inside.
        rewrite (bool_decide_eq_false_2 (el (comp page) `suffix_of` parent)).
        -- cbn [andb]. rewrite app_nil_r. apply delegate_call. exact Hsame.
        -- rewrite <- Hroot. intros Hsuf. apply suffix_length in Hsuf.
           cbn [length] in Hsuf. lia.
      * eapply same_page_trans; [exact Hsame | apply same_page_call_function].
    + cbn [invoke_listeners]. rewrite IH by exact Hsame. unfold inside.
      assert (Hiff : el (comp page) `suffix_of` parent
                     ↔ el (comp page) `suffix_of` i :: parent).
      { split; [apply suffix_cons_r |].
        intros [[| j k] Hk]; cbn [app] in Hk.
        - congruence.
        - injection Hk as _ ->. apply suffix_app_r. reflexivity. }
      rewrite (bool_decide_ext _ _ Hiff). reflexivity.
Qed.

End Delegation.



(** ** useService: the guarded methods *)

Lemma protect_methods_protected (service : val) (l : nat) (methods : list string)
    (s0 s1 : setup_state) (o0 : object) :
  objects (current s0) !! l = Some o0 →
  all_protected service o0 (current s0) →
  protect_methods service (VObj l) methods s0 = (Normal tt, s1) →
  ∃ o1,
    objects (current s1) !! l = Some o1 ∧
    all_protected service o1 (current s1) ∧
    (∀ k, k ∈ methods → is_Some (props o1 !! k)) ∧
    (∀ k, is_Some (props o0 !! k) → is_Some (props o1 !! k)).
Proof.
  revert s0 o0. induction methods as [| method methods IH]; intros s0 o0 Hobj Hall Hrun.
  - cbn [protect_methods] in Hrun. injection Hrun as <-.
    exists o0. repeat split; try assumption.
    + intros k Hk. inversion Hk.
    + auto.
  - cbn [protect_methods] in Hrun.
    unfold bind at 1 in Hrun. unfold lift_completion at 1 in Hrun.
    destruct (get_property service method (current s0)) as [fn | e] eqn:Hget;
      [| discriminate Hrun].
    unfold bind at 1 in Hrun. unfold lift at 1, _protectMethod, new_function in Hrun.
    cbn [fst snd current registered] in Hrun.
    unfold bind at 1 in Hrun. unfold lift at 1 in Hrun.
    cbn [fst snd current registered] in Hrun.
    set (f := fresh (dom (functions (current s0)))) in *.
    assert (Hfresh : functions (current s0) !! f = None)
      by (apply not_elem_of_dom, is_fresh).
    unfold set_property in Hrun. cbn [objects set_functions] in Hrun.
    rewrite Hobj in Hrun.
    match type of Hrun with
    | protect_methods _ _ _ ?s = _ =>
        destruct (IH s {| proto := proto o0; props := <[method := VFun f]> (props o0) |})
          as (o1 & Hobj1 & Hall1 & Hin1 & Hkeep1)
    end.
    + cbn [current objects set_objects set_functions]. apply lookup_insert_eq.
    + intros k v Hkv. cbn [props] in Hkv. cbn [current functions set_objects set_functions].
      destruct (decide (k = method)) as [-> | Hne].
      * rewrite lookup_insert_eq in Hkv. injection Hkv as <-.
        exists f, fn. split; [reflexivity | apply lookup_insert_eq].
      * rewrite lookup_insert_ne in Hkv by congruence.
        destruct (Hall k v Hkv) as (id & fn' & -> & Hid).
        exists id, fn'. split; [reflexivity |].
        rewrite lookup_insert_ne by (intros Heq; rewrite Heq in Hfresh; congruence).
        exact Hid.
    + exact Hrun.
    + exists o1. split; [exact Hobj1 |]. split; [exact Hall1 |]. split.
      * intros k Hk. apply elem_of_cons in Hk as [-> | Hk]; [| auto].
        apply Hkeep1. cbn [props]. rewrite lookup_insert_eq. eauto.
      * intros k Hk. apply Hkeep1. cbn [props].
        destruct (decide (k = method)) as [-> | Hne].
        -- rewrite lookup_insert_eq. eauto.
        -- rewrite lookup_insert_ne by congruence. exact Hk.
Qed.

(** A guarded method is a function object made by [_protectMethod]. *)
Lemma guarded_method_protected (SERVICES_METADATA : gmap string (list string))
    (serviceName : string) (s s' : setup_state) (wrapper : val) :
  guarded_method SERVICES_METADATA serviceName s wrapper s' →
  ∃ id caller fn,
    wrapper = VFun id ∧ functions (current s') !! id = Some (Protected caller fn).
Proof.
  intros (service & methods & r & Hservice & Hmeta & Huse & Hwrapper).
  unfold useService, useComponent, read in Huse. unfold bind at 1 in Huse.
  rewrite bool_decide_eq_true_2 in Huse by (rewrite elem_of_dom, Hservice; eauto).
  cbn [negb] in Huse. rewrite Hservice in Huse. cbn [default from_option id] in Huse.
  rewrite bool_decide_eq_true_2 in Huse by (rewrite elem_of_dom, Hmeta; eauto).
  rewrite Hmeta in Huse. cbn [default from_option id] in Huse.
  destruct Hwrapper as [[Hfun ->] | [Hfun (method & Hmethod & Hget)]];
    rewrite Hfun in Huse.
  - unfold lift, _protectMethod, new_function in Huse. cbn [fst snd] in Huse.
    injection Huse as <- <-.
    eexists _, _, _. split; [reflexivity |].
    cbn [current functions set_functions]. apply lookup_insert_eq.
  - unfold bind at 1 in Huse. unfold lift_completion at 1 in Huse.
    destruct (Object_create service (current s)) as [[result | e] w1] eqn:Hcreate;
      [| discriminate Huse].
    assert (Hresult : ∃ l, result = VObj l ∧
                           w1 = set_objects (<[l := {| proto := service; props := ∅ |}]>
                                               (objects (current s))) (current s)).
    { unfold Object_create, new_object in Hcreate.
      destruct service; try discriminate Hcreate;
        injection Hcreate as <- <-; eexists; split; reflexivity. }
    destruct Hresult as (l & -> & ->).
    unfold bind at 1 in Huse.
    match type of Huse with
    | context [protect_methods ?sv ?res ?ms ?st] =>
        destruct (protect_methods sv res ms st) as [[[] | e] s1] eqn:Hloop;
          [| discriminate Huse]
    end.
    unfold ret in Huse. injection Huse as <- <-.
    edestruct (protect_methods_protected service l methods)
      as (o1 & Hobj1 & Hall1 & Hin1 & _); [| | exact Hloop |].
    + cbn [current objects set_objects]. apply lookup_insert_eq.
    + intros k v Hkv. cbn [props] in Hkv. rewrite lookup_empty in Hkv. discriminate Hkv.
    + destruct (Hin1 method Hmethod) as [v Hv].
      destruct (Hall1 method v Hv) as (id & fn & -> & Hid).
      unfold get_property in Hget. cbn [lookup_chain] in Hget.
      rewrite Hobj1, Hv in Hget. injection Hget as <-.
      exists id, service, fn. auto.
Qed.

(** C1 (as the code has it): calling a guarded method once the component's
    status is DESTROYED returns a new promise that is already rejected with
    the error "Component is destroyed".  The call completes normally, nothing
    is thrown to the caller; the world changes by that promise alone, so the
    trace is the same and the service's own function was not called. *)
Theorem guarded_method_after_destroy (SERVICES_METADATA : gmap string (list string))
    (serviceName : string) (s s' : setup_state) (wrapper : val) (w : world)
    (this : val) (args : list val) (depth : nat) :
  guarded_method SERVICES_METADATA serviceName s wrapper s' →
  same_function wrapper (current s') w →
  status (comp w) = DESTROYED →
  (1 ≤ depth)%nat →
  let q := fresh (dom (promises w)) in
  let r := call_function depth wrapper this args w in
  r = (Normal (VPromise q),
       set_promises
         (<[q := {| state := Rejected (VError "Component is destroyed");
                    settleable := false |}]> (promises w)) w) ∧
  promises w !! q = None ∧
  promise_state q r.2 = Some (Rejected (VError "Component is destroyed")) ∧
  trace r.2 = trace w ∧
  ¬ raises r.
Proof.
  intros Hguarded Hsame Hstatus Hdepth.
  destruct (guarded_method_protected _ _ _ _ _ Hguarded) as (id & caller & fn & -> & Hid).
  rewrite <- (Hsame id eq_refl) in Hid.
  destruct depth as [| d]; [lia |].
  cbn zeta.
  assert (Hcall : call_function (S d) (VFun id) this args w
                  = (Normal (VPromise (fresh (dom (promises w)))),
                     set_promises
                       (<[fresh (dom (promises w)) :=
                            {| state := Rejected (VError "Component is destroyed");
                               settleable := false |}]> (promises w)) w)).
  { cbn [call_function]. rewrite Hid.
    unfold start, new_promise, advance. cbn [protected_call run comp set_promises].
    rewrite Hstatus, Z.eqb_refl. cbn [run].
    unfold settle. cbn [promises set_promises]. rewrite lookup_insert_eq.
    cbn [state promises set_promises]. rewrite insert_insert_eq. reflexivity. }
  rewrite Hcall. cbn [fst snd].
  split; [reflexivity |]. split; [apply not_elem_of_dom, is_fresh |].
  split; [| split].
  - unfold promise_state. cbn [promises set_promises]. rewrite lookup_insert_eq.
    reflexivity.
  - reflexivity.
  - intros [e He]. discriminate He.
Qed.

Lemma guarded_method_after_destroy_witness :
  let w := destroy (useService Example.METADATA "orm"
                      (Example.at_setup Example.desktop)).2.(current) in
  let q := fresh (dom (promises w)) in
  let r := call_function 1 (VFun 3) (VObj 2) [VStr "read"] w in
  r = (Normal (VPromise q),
       set_promises
         (<[q := {| state := Rejected (VError "Component is destroyed");
                    settleable := false |}]> (promises w)) w) ∧
  promises w !! q = None ∧
  promise_state q r.2 = Some (Rejected (VError "Component is destroyed")) ∧
  trace r.2 = trace w ∧
  ¬ raises r.
Proof.
  apply (guarded_method_after_destroy Example.METADATA "orm"
           (Example.at_setup Example.desktop)
           (useService Example.METADATA "orm" (Example.at_setup Example.desktop)).2
           (VFun 3)).
  - exists (VObj 0), ["call"], (VObj 2).
    split; [vm_compute; reflexivity |]. split; [vm_compute; reflexivity |].
    split; [vm_compute; reflexivity |].
    right. split; [reflexivity |].
    exists "call". split; [left | vm_compute; reflexivity].
  - intros id _. reflexivity.
  - reflexivity.
  - lia.
Defined.

(** C1, as the claim states it, fails: the guarded method of service "rpc",
    called after the component was destroyed, does not raise. *)
Lemma guarded_method_after_destroy_does_not_raise :
  ∃ wrapper s',
    guarded_method Example.METADATA "rpc" (Example.at_setup Example.desktop) wrapper s' ∧
    status (comp (destroy (current s'))) = DESTROYED ∧
    ¬ raises (call_function 2 wrapper VUndefined [VNum 1] (destroy (current s'))).
Proof.
  exists (VFun 3),
         (useService Example.METADATA "rpc" (Example.at_setup Example.desktop)).2.
  split; [| split].
  - exists (VFun 0), [], (VFun 3).
    split; [vm_compute; reflexivity |]. split; [vm_compute; reflexivity |].
    split; [vm_compute; reflexivity |].
    left. split; reflexivity.
  - reflexivity.
  - intros [e He]. vm_compute in He. discriminate He.
Qed.

(** ** Calls leave the existing promises alone *)

Lemma frame_refl (own : gset nat) (w : world) : frame own w w.
Proof.
  split; [reflexivity |]. split; [auto |]. split; [reflexivity |].
  exists []. split; [symmetry; apply app_nil_r |]. intros t Ht. inversion Ht.
Qed.

Lemma frame_absorb (own own' : gset nat) (w1 w2 w3 : world) :
  frame own w1 w2 →
  frame own' w2 w3 →
  (∀ x, x ∈ own' → x ∈ own ∨ x ∉ dom (promises w1)) →
  frame own w1 w3.
Proof.
  intros (Hc1 & Hp1 & Hd1 & new1 & Ht1 & Hn1) (Hc2 & Hp2 & Hd2 & new2 & Ht2 & Hn2) Hown.
  split; [congruence |]. split; [| split].
  - intros x Hx Hnot. rewrite Hp2.
    + apply Hp1; assumption.
    + eapply elem_of_weaken; eassumption.
    + intros Hin. destruct (Hown x Hin); auto.
  - etransitivity; eassumption.
  - exists (new1 ++ new2)%list. split; [rewrite Ht2, Ht1, app_assoc; reflexivity |].
    intros t Ht. apply elem_of_app in Ht as [Ht | Ht].
    + destruct (Hn1 t Ht) as [Hin Hor].
      split; [eapply elem_of_weaken; eassumption | exact Hor].
    + destruct (Hn2 t Ht) as [Hin [Hor | Hor]]; split; try exact Hin.
      * destruct (Hown _ Hor); auto.
      * right. intros Hx. apply Hor. eapply elem_of_weaken; eassumption.
Qed.

Lemma frame_trans (own : gset nat) (w1 w2 w3 : world) :
  frame own w1 w2 → frame own w2 w3 → frame own w1 w3.
Proof. intros H1 H2. apply (frame_absorb own own w1 w2 w3 H1 H2). auto. Qed.

Lemma frame_empty (own : gset nat) (w w' : world) : frame ∅ w w' → frame own w w'.
Proof.
  intros H. apply (frame_absorb own ∅ w w w'); [apply frame_refl | exact H |].
  intros x Hx. set_solver.
Qed.

Lemma frame_log (a : action) (w : world) : frame ∅ w (log a w).
Proof. apply (frame_refl ∅ w). Qed.

Lemma frame_new_promise (pr : promise) (w : world) : frame ∅ w (new_promise pr w).2.
Proof.
  unfold new_promise. cbn [snd].
  split; [reflexivity |]. split; [| split].
  - intros x Hx _. cbn [promises set_promises].
    rewrite lookup_insert_ne; [reflexivity |].
    intros <-. apply (is_fresh (dom (promises w))). exact Hx.
  - cbn [promises set_promises]. rewrite dom_insert_L. set_solver.
  - exists []. split; [symmetry; apply app_nil_r |]. intros t Ht. inversion Ht.
Qed.

Lemma frame_settle (q : nat) (st : pstate) (w : world) : frame {[q]} w (settle q st w).
Proof.
  unfold settle.
  destruct (promises w !! q) as [[[] ?] |] eqn:Hq; try apply frame_refl.
  split; [reflexivity |]. split; [| split].
  - intros x Hx Hnot. cbn [promises set_promises].
    rewrite lookup_insert_ne; [reflexivity | set_solver].
  - cbn [promises set_promises]. rewrite dom_insert_L. set_solver.
  - exists []. split; [symmetry; apply app_nil_r |]. intros t Ht. inversion Ht.
Qed.

Lemma frame_park (t : task) (w : world) :
  outcome t ∈ dom (promises w) → frame {[outcome t]} w (park t w).
Proof.
  intros Hin. split; [reflexivity |]. split; [auto |]. split; [reflexivity |].
  exists [t]. split; [reflexivity |].
  intros t' Ht'. apply list_elem_of_singleton in Ht'. subst t'.
  split; [exact Hin | left; set_solver].
Qed.

Lemma frame_resolve (q : nat) (v : val) (w : world) :
  q ∈ dom (promises w) → frame {[q]} w (resolve q v w).
Proof.
  intros Hin. unfold resolve. destruct v; try apply frame_settle.
  apply (frame_park {| awaited := VPromise p; continuation := Ret; outcome := q |}).
  exact Hin.
Qed.

Lemma frame_call_external (f : nat) (b : behaviour) (this : val) (args : list val)
    (w : world) :
  frame ∅ w (call_external f b this args w).2.
Proof.
  unfold call_external. destruct b; try apply frame_log.
  apply (frame_trans ∅ w (log (Invoked f this args) w)); [apply frame_log |].
  pose proof (frame_new_promise {| state := Pending; settleable := true |}
                (log (Invoked f this args) w)) as Hnew.
  destruct (new_promise _ _) as [p w']. exact Hnew.
Qed.

Section PromiseFrame.

Variable call : val → val → list val → world → completion val * world.
Hypothesis call_frame : ∀ f this args w, frame ∅ w (call f this args w).2.

Lemma frame_run (body : async val) (w : world) : frame ∅ w (run call body w).2.
Proof.
  revert w. induction body as [a | e | k IH | fn this args k IH | v k IH | k IH];
    intros w; cbn [run]; try apply frame_refl.
  - apply IH.
  - pose proof (call_frame fn this args w) as Hc.
    destruct (call fn this args w) as [[v | e] w']; cbn [snd] in *; [| exact Hc].
    eapply frame_trans; [exact Hc | apply IH].
  - pose proof (frame_new_promise {| state := Pending; settleable := false |} w) as Hnew.
    destruct (new_promise _ w) as [p w']. cbn [snd] in Hnew.
    eapply frame_trans; [exact Hnew | apply IH].
Qed.

Lemma frame_advance (q : nat) (body : async val) (w : world) :
  q ∈ dom (promises w) → frame {[q]} w (advance call q body w).
Proof.
  intros Hin. unfold advance. pose proof (frame_run body w) as Hr.
  assert (Hin' : q ∈ dom (promises (run call body w).2)).
  { destruct Hr as (_ & _ & Hd & _). eapply elem_of_weaken; eassumption. }
  apply (frame_empty {[q]}) in Hr.
  destruct (run call body w) as [[[v | e] | v k] w']; cbn [snd] in *;
    (eapply frame_trans; [exact Hr |]).
  - apply frame_resolve. exact Hin'.
  - apply frame_settle.
  - apply (frame_park {| awaited := v; continuation := k; outcome := q |}). exact Hin'.
Qed.

Lemma frame_start (body : async val) (w : world) : frame ∅ w (start call body w).2.
Proof.
  unfold start.
  pose proof (frame_new_promise {| state := Pending; settleable := false |} w) as Hnew.
  assert (Hq : (new_promise {| state := Pending; settleable := false |} w).1
               = fresh (dom (promises w))) by reflexivity.
  assert (Hin : fresh (dom (promises w))
                ∈ dom (promises (new_promise {| state := Pending; settleable := false |} w).2)).
  { unfold new_promise. cbn [snd promises set_promises]. rewrite dom_insert_L.
    apply elem_of_union_l, elem_of_singleton. reflexivity. }
  destruct (new_promise _ w) as [q w']. cbn [fst snd] in *. subst q.
  eapply frame_absorb; [exact Hnew | apply frame_advance; exact Hin |].
  intros x Hx. apply elem_of_singleton in Hx. subst x.
  right. apply is_fresh.
Qed.

Lemma frame_boundHandler (querySelector : string) (handler ev : val) (w : world) :
  frame ∅ w (boundHandler call querySelector handler ev w).2.
Proof.
  unfold boundHandler.
  destruct ev as [| | | | | | | | | type [target | b] | | |]; try apply frame_refl.
  destruct (climb w querySelector target); [| apply frame_refl].
  pose proof (call_frame handler (this_component w) [VEvent type (Element target)] w)
    as Hc.
  destruct (call handler _ _ w) as [[v | e] w']; exact Hc.
Qed.

Lemma frame_resume (t : task) (w : world) :
  outcome t ∈ dom (promises w) → frame {[outcome t]} w (resume call t w).
Proof.
  intros Hin. unfold resume. destruct (ready t w) as [[v | e] |].
  - apply frame_advance. exact Hin.
  - apply frame_settle.
  - apply frame_park. exact Hin.
Qed.

End PromiseFrame.

Lemma frame_call_function (depth : nat) (f this : val) (args : list val) (w : world) :
  frame ∅ w (call_function depth f this args w).2.
Proof.
  revert f this args w. induction depth as [| d IH]; intros f this args w.
  - apply frame_refl.
  - cbn [call_function]. destruct f; try apply frame_refl.
    destruct (functions w !! f) as [[b | target this' | qs handler | caller fn] |].
    + apply frame_call_external.
    + apply IH.
    + apply frame_boundHandler, IH.
    + apply frame_start, IH.
    + apply frame_refl.
Qed.

Lemma frame_settle_outside (p : nat) (c : completion val) (w : world) :
  frame {[p]} w (settle_outside p c w).
Proof.
  unfold settle_outside.
  destruct (promises w !! p) as [[[] []] |] eqn:Hp; try apply frame_refl.
  destruct c as [v | e]; [| apply frame_settle].
  assert (Hlock : frame {[p]} w
                    (set_promises (<[p := {| state := Pending; settleable := false |}]>
                                     (promises w)) w)).
  { split; [reflexivity |]. split; [| split].
    - intros x Hx Hnot. cbn [promises set_promises].
      rewrite lookup_insert_ne; [reflexivity |].
      intros <-. apply Hnot, elem_of_singleton. reflexivity.
    - cbn [promises set_promises]. rewrite dom_insert_L. apply union_subseteq_r.
    - exists []. split; [symmetry; apply app_nil_r |]. intros t Ht. inversion Ht. }
  eapply frame_trans; [exact Hlock |].
  apply frame_resolve. cbn [promises set_promises]. rewrite dom_insert_L.
  apply elem_of_union_l, elem_of_singleton. reflexivity.
Qed.

(** ** A guarded call whose component is destroyed stays pending *)

Lemma never_subset (n : nat) (ts ts' : list task) (w : world) :
  (∀ t, t ∈ ts' → t ∈ ts) → never n ts w → never n ts' w.
Proof. intros Hsub [Hn Hts]. split; [exact Hn | auto]. Qed.

Lemma guarded_task_subset (p q : nat) (ts ts' : list task) (w : world) (t : task) :
  (∀ t', t' ∈ ts' → t' ∈ ts) → guarded_task p q ts w t → guarded_task p q ts' w t.
Proof.
  intros Hsub [Hp | (n & Ha & Hnp & Hnq & Hnever)]; [left; exact Hp |].
  right. exists n. repeat split; try assumption.
  - apply Hnever.
  - intros t' Ht'. apply Hnever. auto.
Qed.

Lemma stalls_subset (p q : nat) (ts ts' : list task) (w : world) :
  (∀ t, t ∈ ts' → t ∈ ts) → stalls p q ts w → stalls p q ts' w.
Proof.
  intros Hsub (Hq & Hp & Hpq & Hwf & Hnp & Hg).
  repeat split; try assumption; auto.
  intros t Ht Ho. eapply guarded_task_subset; [exact Hsub | auto].
Qed.

Lemma stalls_same (p q : nat) (ts : list task) (w w' : world) :
  promises w' = promises w → comp w' = comp w → stalls p q ts w → stalls p q ts w'.
Proof.
  intros Hpr Hc (Hq & Hp & Hpq & Hwf & Hnp & Hg).
  unfold stalls, guarded_task, never. rewrite Hpr, Hc. auto 10.
Qed.

Lemma stalls_frame (p q : nat) (ts new : list task) (own : gset nat) (w w' : world) :
  stalls p q ts w →
  frame own w w' →
  tasks w' = (tasks w ++ new)%list →
  (∀ o, o ∈ own → o ≠ q ∧ o ≠ p ∧ ∀ n, never n ts w → o ≠ n) →
  stalls p q (ts ++ new) w'.
Proof.
  intros (Hq & Hp & Hpq & Hwf & Hnp & Hg) (Hc & Hpr & Hd & new0 & Hnew0 & Hn0) Hnew Hown.
  assert (new0 = new) by (rewrite Hnew0 in Hnew; apply (app_inv_head _ _ _ Hnew)).
  subst new0.
  assert (Hqin : q ∈ dom (promises w)) by (apply elem_of_dom; eauto).
  assert (Hpin : p ∈ dom (promises w))
    by (apply elem_of_dom; destruct Hp as [Hp | (v & Hp & _)]; eauto).
  assert (Hqown : q ∉ own) by (intros Hin; destruct (Hown q Hin) as (Hne & _); auto).
  assert (Hpown : p ∉ own) by (intros Hin; destruct (Hown p Hin) as (_ & Hne & _); auto).
  assert (Hnever : ∀ n, never n ts w → never n (ts ++ new) w').
  { intros n Hn. pose proof Hn as [Hentry Hts].
    assert (Hnin : n ∈ dom (promises w)) by (apply elem_of_dom; eauto).
    split.
    - rewrite Hpr; [exact Hentry | exact Hnin |].
      intros Hin. destruct (Hown n Hin) as (_ & _ & Hne). apply (Hne n Hn). reflexivity.
    - intros t Ht. apply elem_of_app in Ht as [Ht | Ht]; [auto |].
      destruct (Hn0 t Ht) as [_ [Ho | Ho]].
      + destruct (Hown _ Ho) as (_ & _ & Hne). apply Hne. exact Hn.
      + intros Heq. apply Ho. rewrite Heq. exact Hnin. }
  split; [rewrite Hpr; assumption |]. split.
  { rewrite Hc, (Hpr p Hpin Hpown). exact Hp. }
  split; [exact Hpq |]. split; [| split].
  - intros t Ht. apply elem_of_app in Ht as [Ht | Ht].
    + eapply elem_of_weaken; [apply Hwf, Ht | exact Hd].
    + apply (Hn0 t Ht).
  - intros t Ht. apply elem_of_app in Ht as [Ht | Ht]; [auto |].
    destruct (Hn0 t Ht) as [_ [Ho | Ho]].
    + destruct (Hown _ Ho) as (_ & Hne & _). exact Hne.
    + intros Heq. apply Ho. rewrite Heq. exact Hpin.
  - intros t Ht Ho. apply elem_of_app in Ht as [Ht | Ht].
    + destruct (Hg t Ht Ho) as [Hawait | (n & Ha & Hn1 & Hn2 & Hn)]; [left; exact Hawait |].
      right. exists n. auto.
    + exfalso. destruct (Hn0 t Ht) as [_ [Hin | Hin]].
      * rewrite Ho in Hin. contradiction.
      * apply Hin. rewrite Ho. exact Hqin.
Qed.

Lemma stalls_add (p q n : nat) (ts : list task) (w : world) (t : task) :
  stalls p q ts w → never n ts w → n ≠ p → n ≠ q →
  awaited t = VPromise n → outcome t = q →
  stalls p q (t :: ts) w.
Proof.
  intros (Hq & Hp & Hpq & Hwf & Hnp & Hg) [Hentry Hts] Hn1 Hn2 Ha Ho.
  assert (Hnever : ∀ n0, n0 ≠ q → never n0 ts w → never n0 (t :: ts) w).
  { intros n0 Hne [He Ht0]. split; [exact He |].
    intros t' Ht'. apply elem_of_cons in Ht' as [-> | Ht']; [congruence | auto]. }
  split; [exact Hq |]. split; [exact Hp |]. split; [exact Hpq |]. split; [| split].
  - intros t' Ht'. apply elem_of_cons in Ht' as [-> | Ht']; [| auto].
    rewrite Ho. apply elem_of_dom. eauto.
  - intros t' Ht'. apply elem_of_cons in Ht' as [-> | Ht']; [congruence | auto].
  - intros t' Ht' Ho'.
    apply elem_of_cons in Ht' as [-> | Ht'].
    + right. exists n. repeat split; try assumption.
      intros t' Ht'. apply elem_of_cons in Ht' as [-> | Ht']; [congruence | auto].
    + destruct (Hg t' Ht' Ho') as [Hawait | (n0 & Ha0 & Hn01 & Hn02 & Hn0)].
      * left. exact Hawait.
      * right. exists n0. auto.
Qed.

(** Membership in lists built with [::] and [++]. *)
Ltac list_membership :=
  repeat (rewrite elem_of_app || rewrite elem_of_cons || rewrite elem_of_nil);
  tauto.

Lemma resume_not_ready (call : val → val → list val → world → completion val * world)
    (t : task) (n : nat) (b : bool) (w : world) :
  awaited t = VPromise n →
  promises w !! n = Some {| state := Pending; settleable := b |} →
  resume call t w = park t w.
Proof.
  intros Ha Hn. unfold resume, ready. rewrite Ha, Hn. reflexivity.
Qed.

Lemma stalls_park (p q : nat) (t : task) (rest : list task) (w : world) :
  stalls p q (t :: rest ++ tasks w) w →
  stalls p q (rest ++ tasks (park t w)) (park t w).
Proof.
  intros Hst. apply (stalls_same p q _ w); [reflexivity | reflexivity |].
  eapply stalls_subset; [| exact Hst].
  intros t'. cbn [park tasks set_tasks]. list_membership.
Qed.

(** One parked body gets its turn. *)
Lemma stalls_resume (depth p q : nat) (t : task) (rest : list task) (w : world) :
  stalls p q (t :: rest ++ tasks w) w →
  let w' := resume (call_function depth) t w in
  stalls p q (rest ++ tasks w') w' ∧
  comp w' = comp w ∧
  promises w' !! p = promises w !! p.
Proof.
  intros Hst. cbn zeta. pose proof Hst as (Hq & Hp & Hpq & Hwf & Hnp & Hg).
  assert (Hin : outcome t ∈ dom (promises w)) by (apply Hwf; left).
  assert (Hpin : p ∈ dom (promises w))
    by (apply elem_of_dom; destruct Hp as [Hp | (v & Hp & _)]; eauto).
  pose proof (frame_resume (call_function depth) (frame_call_function depth) t w Hin)
    as Hframe.
  split; [| split].
  - destruct (decide (outcome t = q)) as [Ho | Ho].
    + destruct (Hg t (list_elem_of_here _ _) Ho)
        as [[Ha Hk] | (n & Ha & Hn1 & Hn2 & [Hentry Hts])].
      * destruct Hp as [Hp | (v & Hp & Hstatus)].
        -- rewrite (resume_not_ready _ t p true w Ha Hp). apply stalls_park, Hst.
        -- unfold resume, ready. rewrite Ha, Hp. cbn [state].
           rewrite Hk, Ho. unfold advance, protected_rest. cbn [run].
           rewrite Hstatus, Z.eqb_refl. cbn [run new_promise].
           set (n := fresh (dom (promises w))).
           set (wn := set_promises (<[n := {| state := Pending; settleable := false |}]>
                                      (promises w)) w).
           set (t' := {| awaited := VPromise n; continuation := Ret; outcome := q |}).
           cbn [resolve].
           assert (Hfresh : n ∉ dom (promises w)) by apply is_fresh.
           assert (Hstn : stalls p q ((t :: rest ++ tasks w) ++ []) wn).
           { apply (stalls_frame p q _ [] ∅ w wn Hst).
             - apply (frame_new_promise {| state := Pending; settleable := false |} w).
             - symmetry. apply app_nil_r.
             - intros o Habs. exfalso. revert Habs. apply not_elem_of_empty. }
           rewrite app_nil_r in Hstn.
           assert (Hnever : never n (t :: rest ++ tasks w) wn).
           { split.
             - unfold wn. cbn [promises set_promises]. apply lookup_insert_eq.
             - intros t0 Ht0 Heq. apply Hfresh. rewrite <- Heq. apply Hwf, Ht0. }
           assert (Hnp' : n ≠ p) by (intros ->; contradiction).
           assert (Hnq' : n ≠ q)
             by (intros ->; apply Hfresh, elem_of_dom; eauto).
           pose proof (stalls_add p q n _ wn t' Hstn Hnever Hnp' Hnq' eq_refl eq_refl)
             as Hadd.
           apply (stalls_same p q _ wn); [reflexivity | reflexivity |].
           eapply stalls_subset; [| exact Hadd].
           intros t0. cbn [park tasks set_tasks wn set_promises]. list_membership.
      * rewrite (resume_not_ready _ t n false w Ha Hentry). apply stalls_park, Hst.
    + destruct Hframe as (Hc & Hpr & Hd & new & Hnew & Hprop).
      assert (Hframe : frame {[outcome t]} w (resume (call_function depth) t w)).
      { split; [exact Hc |]. split; [exact Hpr |]. split; [exact Hd |].
        exists new. split; assumption. }
      pose proof (stalls_frame p q _ new {[outcome t]} w _ Hst Hframe Hnew) as Hres.
      eapply stalls_subset; [| apply Hres].
      * intros t0. rewrite Hnew. list_membership.
      * intros o Ho'. apply elem_of_singleton in Ho'. subst o.
        split; [exact Ho |]. split; [apply Hnp; left |].
        intros n [_ Hts] Heq. apply (Hts t); [left | exact Heq].
  - apply Hframe.
  - destruct Hframe as (_ & Hpr & _). apply Hpr; [exact Hpin |].
    intros Heq. apply elem_of_singleton in Heq. apply (Hnp t); [left | congruence].
Qed.

(** All parked bodies get their turn. *)
Lemma stalls_tick_fold (depth p q : nat) (rest : list task) (w : world) :
  stalls p q (rest ++ tasks w) w →
  let w' := fold_left (fun w0 t => resume (call_function depth) t w0) rest w in
  stalls p q (tasks w') w' ∧
  comp w' = comp w ∧
  promises w' !! p = promises w !! p.
Proof.
  revert w. induction rest as [| t rest IH]; intros w Hst; cbn zeta.
  - cbn [fold_left]. auto.
  - cbn [fold_left].
    destruct (stalls_resume depth p q t rest w Hst) as (Hst1 & Hc1 & Hp1).
    destruct (IH _ Hst1) as (Hst2 & Hc2 & Hp2).
    split; [exact Hst2 |]. split; congruence.
Qed.

Lemma stalls_tick (depth p q : nat) (w : world) :
  stalls p q (tasks w) w →
  stalls p q (tasks (tick depth w)) (tick depth w) ∧
  comp (tick depth w) = comp w ∧
  promises (tick depth w) !! p = promises w !! p.
Proof.
  intros Hst. unfold tick.
  apply (stalls_tick_fold depth p q (tasks w) (set_tasks [] w)).
  cbn [tasks set_tasks]. rewrite app_nil_r.
  apply (stalls_same p q _ w); [reflexivity | reflexivity | exact Hst].
Qed.

Lemma stalls_fulfil (p q : nat) (ts : list task) (w w' : world) (v : val) :
  stalls p q ts w →
  (∀ x, x ≠ p → promises w' !! x = promises w !! x) →
  promises w' !! p = Some {| state := Fulfilled v; settleable := false |} →
  comp w' = comp w →
  status (comp w) = DESTROYED →
  stalls p q ts w'.
Proof.
  intros (Hq & Hp & Hpq & Hwf & Hnp & Hg) Hsame Hp' Hc Hstatus.
  split; [rewrite Hsame by congruence; exact Hq |].
  split; [right; exists v; rewrite Hc; auto |].
  split; [exact Hpq |]. split; [| split; [exact Hnp |]].
  - intros t Ht. pose proof (Hwf t Ht) as Hin. apply elem_of_dom in Hin.
    apply elem_of_dom. rewrite Hsame; [exact Hin |]. apply Hnp, Ht.
  - intros t Ht Ho.
    destruct (Hg t Ht Ho) as [Hawait | (n & Ha & Hn1 & Hn2 & [Hentry Hts])];
      [left; exact Hawait |].
    right. exists n. repeat split; try assumption.
    rewrite Hsame; assumption.
Qed.

Lemma stalls_settle_outside (p q p' : nat) (c : completion val) (w : world) :
  stalls p q (tasks w) w →
  fulfils_after_destroy p (Settled p' c) w →
  let w' := settle_outside p' c w in
  stalls p q (tasks w') w' ∧
  comp w' = comp w ∧
  (p' ≠ p → promises w' !! p = promises w !! p).
Proof.
  intros Hst Hok. cbn zeta. pose proof Hst as (Hq & Hp & Hpq & Hwf & Hnp & Hg).
  assert (Hpin : p ∈ dom (promises w))
    by (apply elem_of_dom; destruct Hp as [Hp | (v & Hp & _)]; eauto).
  pose proof (frame_settle_outside p' c w) as Hframe.
  split; [| split; [apply Hframe |]].
  - destruct (decide (p' = p)) as [-> | Hne].
    + destruct (Hok c eq_refl) as (Hstatus & v & -> & Hplain).
      destruct Hp as [Hp | (v0 & Hp & _)].
      * unfold settle_outside. rewrite Hp.
        assert (Hres : ∀ w0, resolve p v w0 = settle p (Fulfilled v) w0).
        { intros w0. destruct v; try reflexivity. exfalso. apply (Hplain p0). reflexivity. }
        rewrite Hres. unfold settle. cbn [promises set_promises].
        rewrite lookup_insert_eq. cbn [state].
        apply (stalls_fulfil p q _ w _ v Hst); try reflexivity; try assumption.
        -- intros x Hx. cbn [promises set_promises].
           rewrite !lookup_insert_ne by congruence. reflexivity.
        -- cbn [promises set_promises]. apply lookup_insert_eq.
      * unfold settle_outside. rewrite Hp. exact Hst.
    + destruct (promises w !! p') as [[[] []] |] eqn:Hp';
        try (unfold settle_outside; rewrite Hp'; exact Hst).
      destruct Hframe as (Hc & Hpr & Hd & new & Hnew & Hprop).
      rewrite Hnew.
      apply (stalls_frame p q (tasks w) new {[p']} w _ Hst).
      * split; [exact Hc |]. split; [exact Hpr |]. split; [exact Hd |].
        exists new. split; assumption.
      * exact Hnew.
      * intros o Ho. apply elem_of_singleton in Ho. subst o.
        split; [intros ->; congruence |]. split; [exact Hne |].
        intros n [Hentry _] ->. congruence.
  - intros Hne. destruct Hframe as (_ & Hpr & _). apply Hpr; [exact Hpin |].
    intros Heq. apply elem_of_singleton in Heq. congruence.
Qed.

Lemma stalls_destroy (p q : nat) (ts : list task) (w : world) :
  stalls p q ts w → stalls p q ts (destroy w).
Proof.
  intros (Hq & Hp & Hpq & Hwf & Hnp & Hg).
  split; [exact Hq |]. split; [| auto].
  destruct Hp as [Hp | (v & Hp & _)]; [left; exact Hp |].
  right. exists v. split; [exact Hp | reflexivity].
Qed.

Lemma stalls_invoke (depth p q : nat) (f this : val) (args : list val) (w : world) :
  stalls p q (tasks w) w →
  let w' := (call_function depth f this args w).2 in
  stalls p q (tasks w') w' ∧
  comp w' = comp w ∧
  promises w' !! p = promises w !! p.
Proof.
  intros Hst. cbn zeta. pose proof Hst as (Hq & Hp & Hpq & Hwf & Hnp & Hg).
  assert (Hpin : p ∈ dom (promises w))
    by (apply elem_of_dom; destruct Hp as [Hp | (v & Hp & _)]; eauto).
  pose proof (frame_call_function depth f this args w) as Hframe.
  split; [| split; [apply Hframe |]].
  - destruct Hframe as (Hc & Hpr & Hd & new & Hnew & Hprop).
    rewrite Hnew.
    apply (stalls_frame p q (tasks w) new ∅ w _ Hst).
    + split; [exact Hc |]. split; [exact Hpr |]. split; [exact Hd |].
      exists new. split; assumption.
    + exact Hnew.
    + intros o Ho. exfalso. revert Ho. apply not_elem_of_empty.
  - destruct Hframe as (_ & Hpr & _). apply Hpr; [exact Hpin |].
    apply not_elem_of_empty.
Qed.

(** Whatever happens next keeps the call stalled, as long as the service's
    promise is not rejected and is fulfilled only after the destruction. *)
Lemma stalls_step (depth p q : nat) (e : event) (w : world) :
  stalls p q (tasks w) w →
  fulfils_after_destroy p e w →
  let w' := step depth e w in
  stalls p q (tasks w') w' ∧
  (status (comp w) = DESTROYED → status (comp w') = DESTROYED) ∧
  (leaves p e → promises w' !! p = promises w !! p).
Proof.
  intros Hst Hok. cbn zeta. destruct e as [| p' c | | f this args]; cbn [step].
  - split; [apply stalls_destroy, Hst | auto].
  - destruct (stalls_settle_outside p q p' c w Hst Hok) as (Hst' & Hc & Hp').
    split; [exact Hst' |]. split; [rewrite Hc; auto |].
    intros Hleaves. apply Hp'. intros ->. apply (Hleaves c). reflexivity.
  - destruct (stalls_tick depth p q w Hst) as (Hst' & Hc & Hp').
    split; [exact Hst' |]. split; [rewrite Hc; auto | auto].
  - destruct (stalls_invoke depth p q f this args w Hst) as (Hst' & Hc & Hp').
    split; [exact Hst' |]. split; [rewrite Hc; auto | auto].
Qed.

Lemma stalls_before_destroy (depth p q : nat) (es : list event) (w : world) :
  stalls p q (tasks w) w →
  promises w !! p = Some {| state := Pending; settleable := true |} →
  Forall (leaves p) es →
  let w' := steps depth es w in
  stalls p q (tasks w') w' ∧
  promises w' !! p = Some {| state := Pending; settleable := true |}.
Proof.
  revert w. induction es as [| e es IH]; intros w Hst Hp Hes; cbn zeta.
  - auto.
  - apply Forall_cons in Hes as [He Hes]. unfold steps. cbn [fold_left].
    fold (steps depth es (step depth e w)).
    destruct (stalls_step depth p q e w Hst) as (Hst' & _ & Hp').
    { intros c ->. exfalso. apply (He c). reflexivity. }
    apply IH; [exact Hst' | rewrite Hp' by exact He; exact Hp | exact Hes].
Qed.

Lemma stalls_after_destroy (depth p q : nat) (es : list event) (w : world) :
  stalls p q (tasks w) w →
  status (comp w) = DESTROYED →
  Forall (fulfils p) es →
  let w' := steps depth es w in
  stalls p q (tasks w') w'.
Proof.
  revert w. induction es as [| e es IH]; intros w Hst Hstatus Hes; cbn zeta.
  - exact Hst.
  - apply Forall_cons in Hes as [He Hes]. unfold steps. cbn [fold_left].
    fold (steps depth es (step depth e w)).
    destruct (stalls_step depth p q e w Hst) as (Hst' & Hstatus' & _).
    { intros c ->. split; [exact Hstatus | apply (He c); reflexivity]. }
    apply IH; [exact Hst' | auto | exact Hes].
Qed.

Lemma stalls_unsettled (p q : nat) (ts : list task) (w : world) :
  stalls p q ts w → settled q w = false.
Proof.
  intros (Hq & _). unfold settled, promise_state. rewrite Hq. reflexivity.
Qed.

(** The start of a guarded call on a live component: the service's function
    runs and returns its promise, the wrapper's body parks at the [await]. *)
Lemma protected_call_starts (d id g : nat) (caller this : val) (args : list val)
    (w : world) :
  functions w !! id = Some (Protected caller (VFun g)) →
  functions w !! g = Some (External Starts) →
  status (comp w) ≠ DESTROYED →
  let q := fresh (dom (promises w)) in
  let wq := set_promises (<[q := {| state := Pending; settleable := false |}]> (promises w)) w in
  let p := fresh (dom (promises wq)) in
  call_function (S (S d)) (VFun id) this args w
  = (Normal (VPromise q),
     park {| awaited := VPromise p; continuation := protected_rest; outcome := q |}
          (set_promises (<[p := {| state := Pending; settleable := true |}]> (promises wq))
                        (log (Invoked g caller args) wq))).
Proof.
  intros Hid Hg Hstatus. cbn zeta.
  cbn [call_function]. rewrite Hid.
  unfold start, new_promise, advance. cbn [protected_call run comp set_promises].
  rewrite (proj2 (Z.eqb_neq _ _) Hstatus). cbn [run call_function functions set_promises].
  rewrite Hg. unfold call_external, new_promise. cbn [run]. reflexivity.
Qed.

(** C2 (as the code has it): a guarded method is called on a live component
    and the service starts an asynchronous operation with promise [p]; the
    caller gets promise [q], and the wrapper's body is parked awaiting [p].
    If the component is destroyed before [p] settles, then whatever happens
    before and after (other calls, other promises, turns of the parked
    bodies), as long as [p] is not rejected (it stays pending or is fulfilled
    with a value), [q] is neither resolved nor rejected: the result of the
    service never reaches the caller. *)
Theorem guarded_method_destroyed_in_flight (SERVICES_METADATA : gmap string (list string))
    (serviceName : string) (s s' : setup_state) (wrapper : val) (w : world)
    (this : val) (args : list val) (depth : nat) :
  guarded_method SERVICES_METADATA serviceName s wrapper s' →
  same_function wrapper (current s') w →
  guards_operation wrapper w →
  status (comp w) ≠ DESTROYED →
  tasks_known w →
  (2 ≤ depth)%nat →
  ∃ q p,
    let r := call_function depth wrapper this args w in
    r.1 = Normal (VPromise q) ∧
    promises w !! q = None ∧
    promises w !! p = None ∧
    promises r.2 !! p = Some {| state := Pending; settleable := true |} ∧
    (∃ t, t ∈ tasks r.2 ∧ awaited t = VPromise p ∧ outcome t = q) ∧
    ∀ es1 es2,
      Forall (leaves p) es1 →
      Forall (fulfils p) es2 →
      settled q (steps depth (es1 ++ Destroy :: es2) r.2) = false.
Proof.
  intros Hguarded Hsame Hop Hstatus Hknown Hdepth.
  destruct (guarded_method_protected _ _ _ _ _ Hguarded) as (id & caller & fn & -> & Hid).
  rewrite <- (Hsame id eq_refl) in Hid.
  destruct (Hop id caller fn eq_refl Hid) as (g & -> & Hg).
  destruct depth as [| [| d]]; [lia | lia |].
  set (q := fresh (dom (promises w))).
  set (wq := set_promises (<[q := {| state := Pending; settleable := false |}]> (promises w)) w).
  set (p := fresh (dom (promises wq))).
  exists q, p. cbn zeta.
  rewrite (protected_call_starts d id g caller this args w Hid Hg Hstatus).
  fold q. fold wq. fold p. cbn [fst snd].
  set (t0 := {| awaited := VPromise p; continuation := protected_rest; outcome := q |}).
  set (w1 := park t0 _).
  assert (Hq : promises w !! q = None) by (apply not_elem_of_dom, is_fresh).
  assert (Hpq : promises wq !! p = None) by (apply not_elem_of_dom, is_fresh).
  assert (Hne : p ≠ q).
  { intros Heq. rewrite Heq in Hpq. unfold wq in Hpq. cbn [promises set_promises] in Hpq.
    rewrite lookup_insert_eq in Hpq. discriminate Hpq. }
  assert (Hp : promises w !! p = None).
  { unfold wq in Hpq. cbn [promises set_promises] in Hpq.
    rewrite lookup_insert_ne in Hpq by congruence. exact Hpq. }
  assert (Hp1 : promises w1 !! p = Some {| state := Pending; settleable := true |}).
  { unfold w1. cbn [promises park set_tasks set_promises]. apply lookup_insert_eq. }
  assert (Hq1 : promises w1 !! q = Some {| state := Pending; settleable := false |}).
  { unfold w1, wq. cbn [promises park set_tasks set_promises log set_trace].
    rewrite lookup_insert_ne by exact Hne. apply lookup_insert_eq. }
  assert (Hdom : ∀ x, x ∈ dom (promises w) → x ∈ dom (promises w1)).
  { intros x Hx. unfold w1, wq. cbn [promises park set_tasks set_promises log set_trace].
    rewrite !dom_insert_L. apply elem_of_union_r, elem_of_union_r, Hx. }
  assert (Hst : stalls p q (tasks w1) w1).
  { split; [exact Hq1 |]. split; [left; exact Hp1 |]. split; [exact Hne |].
    unfold w1 at 1 3 5. cbn [tasks park set_tasks set_promises log set_trace wq].
    split; [| split].
    - intros t Ht. apply elem_of_app in Ht as [Ht | Ht].
      + apply Hdom, Hknown, Ht.
      + apply list_elem_of_singleton in Ht. subst t. apply elem_of_dom. eauto.
    - intros t Ht. apply elem_of_app in Ht as [Ht | Ht].
      + intros Heq. apply Hknown in Ht. rewrite Heq in Ht.
        apply elem_of_dom in Ht as [x Hx]. congruence.
      + apply list_elem_of_singleton in Ht. subst t. cbn [outcome t0]. congruence.
    - intros t Ht Ho. apply elem_of_app in Ht as [Ht | Ht].
      + exfalso. apply Hknown in Ht. rewrite Ho in Ht.
        apply elem_of_dom in Ht as [x Hx]. congruence.
      + apply list_elem_of_singleton in Ht. subst t. left. split; reflexivity. }
  split; [reflexivity |]. split; [exact Hq |]. split; [exact Hp |]. split; [exact Hp1 |].
  split.
  { exists t0. split; [| split; reflexivity].
    unfold w1. cbn [tasks park set_tasks]. apply elem_of_app. right. left. }
  intros es1 es2 Hes1 Hes2.
  destruct (stalls_before_destroy (S (S d)) p q es1 w1 Hst Hp1 Hes1) as (HstA & _).
  unfold steps. rewrite fold_left_app. cbn [fold_left step].
  fold (steps (S (S d)) es1 w1).
  fold (steps (S (S d)) es2 (destroy (steps (S (S d)) es1 w1))).
  apply (stalls_unsettled p q (tasks (steps (S (S d)) es2 (destroy (steps (S (S d)) es1 w1))))).
  apply stalls_after_destroy; [apply stalls_destroy, HstA | reflexivity | exact Hes2].
Qed.

Lemma guarded_method_destroyed_in_flight_witness :
  ∃ q p,
    let r := call_function 2 (VFun 3) VUndefined [VNum 1]
               (useService Example.METADATA "rpc"
                  (Example.at_setup Example.desktop)).2.(current) in
    r.1 = Normal (VPromise q) ∧
    promises (useService Example.METADATA "rpc"
                (Example.at_setup Example.desktop)).2.(current) !! q = None ∧
    promises (useService Example.METADATA "rpc"
                (Example.at_setup Example.desktop)).2.(current) !! p = None ∧
    promises r.2 !! p = Some {| state := Pending; settleable := true |} ∧
    (∃ t, t ∈ tasks r.2 ∧ awaited t = VPromise p ∧ outcome t = q) ∧
    ∀ es1 es2,
      Forall (leaves p) es1 →
      Forall (fulfils p) es2 →
      settled q (steps 2 (es1 ++ Destroy :: es2) r.2) = false.
Proof.
  apply (guarded_method_destroyed_in_flight Example.METADATA "rpc"
           (Example.at_setup Example.desktop)
           (useService Example.METADATA "rpc" (Example.at_setup Example.desktop)).2
           (VFun 3)).
  - exists (VFun 0), [], (VFun 3).
    split; [vm_compute; reflexivity |]. split; [vm_compute; reflexivity |].
    split; [vm_compute; reflexivity |].
    left. split; reflexivity.
  - intros id _. reflexivity.
  - intros id caller fn Hid Hfn. injection Hid as <-.
    vm_compute in Hfn. injection Hfn as _ <-.
    exists 0%nat. split; [reflexivity | vm_compute; reflexivity].
  - vm_compute. discriminate.
  - intros t Ht. inversion Ht.
  - lia.
Defined.

(** C2, as the claim states it, fails: the service "rpc" starts its
    operation (promise 1), the component is destroyed, the operation then
    fails, and at the next turn the promise the caller holds (promise 0) is
    rejected with the operation's error. *)
Lemma guarded_method_rejection_reaches_caller :
  ∃ wrapper s',
    guarded_method Example.METADATA "rpc" (Example.at_setup Example.desktop) wrapper s' ∧
    let r := call_function 2 wrapper VUndefined [VNum 1] (current s') in
    let w' := steps 2 [Destroy; Settled 1 (Throw (VError "timeout")); Tick] r.2 in
    r.1 = Normal (VPromise 0) ∧
    promise_state 0 r.2 = Some Pending ∧
    promise_state 1 r.2 = Some Pending ∧
    status (comp w') = DESTROYED ∧
    promise_state 0 w' = Some (Rejected (VError "timeout")) ∧
    settled 0 w' = true.
Proof.
  exists (VFun 3),
         (useService Example.METADATA "rpc" (Example.at_setup Example.desktop)).2.
  split.
  - exists (VFun 0), [], (VFun 3).
    split; [vm_compute; reflexivity |]. split; [vm_compute; reflexivity |].
    split; [vm_compute; reflexivity |].
    left. split; reflexivity.
  - vm_compute. repeat split; reflexivity.
Qed.

(** ** The hooks at work on the example page *)

(** The component with [useAutofocus] alone: mounting focuses the input and
    puts the caret behind "hello". *)
Example autofocus_on_mount :
  let s := (useAutofocus None (Example.at_setup Example.desktop)).2 in
  let w := (mount (registered s) (current s)).2 in
  trace w = [Focused [2; 0]%nat] ∧
  selectionStart (document w [2; 0]%nat) = VNum 5 ∧
  selectionEnd (document w [2; 0]%nat) = VNum 5.
Proof. vm_compute. repeat split; reflexivity. Qed.

(** A click on the button, below the button, on the input, and outside the
    component's root. *)
Example click_with_selector :
  let s := (useListener "click" [VStr "button"; VFun 2]
              (Example.at_setup Example.desktop)).2 in
  let w := (mount (registered s) (current s)).2 in
  trace (dispatch_dom 2 [1; 0]%nat "click" w)
  = [Invoked 2 (VObj 7) [VEvent "click" (Element [1; 0]%nat)]] ∧
  trace (dispatch_dom 2 [4; 1; 0]%nat "click" w)
  = [Invoked 2 (VObj 7) [VEvent "click" (Element [4; 1; 0]%nat)]] ∧
  trace (dispatch_dom 2 [2; 0]%nat "click" w) = [] ∧
  trace (dispatch_dom 2 [3]%nat "click" w) = [].
Proof. vm_compute. repeat split; reflexivity. Qed.

(** Without a selector every click inside the root reaches the handler. *)
Example click_without_selector :
  let s := (useListener "click" [VFun 2] (Example.at_setup Example.desktop)).2 in
  let w := (mount (registered s) (current s)).2 in
  trace (dispatch_dom 2 [2; 0]%nat "click" w)
  = [Invoked 2 (VObj 7) [VEvent "click" (Element [2; 0]%nat)]] ∧
  trace (dispatch_dom 2 [3]%nat "click" w) = [].
Proof. vm_compute. repeat split; reflexivity. Qed.

(** The bus listener before and after teardown. *)
Example bus_before_and_after_teardown :
  let s := (useBus 3 "notify" 2 (Example.at_setup Example.desktop)).2 in
  let st := mount (registered s) (current s) in
  trace (dispatch_bus 2 3 "notify" st.2)
  = [Invoked 2 (VObj 7) [VEvent "notify" (Bus 3)]] ∧
  trace (dispatch_bus 2 3 "notify" (unmount st.1 st.2)) = [].
Proof. vm_compute. repeat split; reflexivity. Qed.

(** The guarded "rpc" on a live component: the result reaches the caller.
    With the component destroyed in between, the caller's promise stays
    pending. *)
Example rpc_live_and_destroyed :
  let s := (useService Example.METADATA "rpc" (Example.at_setup Example.desktop)).2 in
  let w := (call_function 2 (VFun 3) VUndefined [VNum 1] (current s)).2 in
  trace w = [Invoked 0 VNull [VNum 1]] ∧
  promise_state 0 (steps 2 [Settled 1 (Normal (VNum 9)); Tick] w)
  = Some (Fulfilled (VNum 9)) ∧
  promise_state 0 (steps 2 [Destroy; Settled 1 (Normal (VNum 9)); Tick; Tick] w)
  = Some Pending.
Proof. vm_compute. repeat split; reflexivity. Qed.

(** The guarded method "call" of service "orm" is a property of the object
    that [useService] returns; the object inherits from the service. *)
Example orm_is_wrapped :
  let r := useService Example.METADATA "orm" (Example.at_setup Example.desktop) in
  r.1 = Normal (VObj 2) ∧
  get_property (VObj 2) "call" (current r.2) = Normal (VFun 3) ∧
  functions (current r.2) !! 3%nat = Some (Protected (VObj 0) (VFun 0)) ∧
  proto <$> objects (current r.2) !! 2%nat = Some (VObj 0).
Proof. vm_compute. repeat split; reflexivity. Qed.

(** The referenced element is absent at the mount and appears later: it is
    focused at the first update that sees it, and not again at the next. *)
Example autofocus_when_element_appears :
  let s := (useAutofocus None (Example.at_setup Example.desktop)).2 in
  let w0 := set_comp (set_refs ∅ (comp (current s))) (current s) in
  let st0 := mount (registered s) w0 in
  let w1 := set_comp (set_refs {[ "autofocus" := [2; 0]%nat ]} (comp st0.2)) st0.2 in
  let st1 := patch st0.1 w1 in
  let st2 := patch st1.1 st1.2 in
  trace st0.2 = [] ∧
  trace st1.2 = [Focused [2; 0]%nat] ∧
  trace st2.2 = [Focused [2; 0]%nat].
Proof. vm_compute. repeat split; reflexivity. Qed.

(** * Further properties of the hooks *)

(** ** useListener without a selector, and teardown *)

Lemma useListener_bound_setup (eventName : string) (handler : nat) (more : list val)
    (s : setup_state) :
  ∃ options w1,
    useListener eventName (VFun handler :: more) s
    = (Normal tt,
       {| current := w1;
          registered := registered s ++
            [listener_hook eventName (VFun (fresh (dom (functions (current s))))) options] |}) ∧
    functions w1
    = <[fresh (dom (functions (current s))) :=
          Bound (VFun handler) (VObj (self (comp (current s))))]> (functions (current s)) ∧
    listeners w1 = listeners (current s) ∧
    comp w1 = comp (current s) ∧
    document w1 = document (current s) ∧
    trace w1 = trace (current s).
Proof.
  unfold useListener. rewrite !argument_cons.
  change (argument 0 (VFun handler :: more)) with (VFun handler).
  cbn [typeof].
  rewrite (bool_decide_eq_false_2 ("function" = "string")) by discriminate.
  cbn [negb].
  destruct (argument 1 more) eqn:Hdefault; destruct (truthy (argument 0 more)) eqn:Hopt;
    (unfold bind, ret, lift, useComponent, read, useEffect, new_object, new_function;
     cbn -[fresh bool_decide addEventListener removeEventListener];
     rewrite (bool_decide_eq_true_2 ("function" = "function")) by reflexivity;
     cbn -[fresh addEventListener removeEventListener];
     eexists _, _; split; [reflexivity | repeat split]).
  Unshelve. all: exact (argument 0 more).
Qed.

Lemma useListener_empty_selector_setup (eventName : string) (handler : nat)
    (more : list val) (s : setup_state) :
  ∃ options w1,
    useListener eventName (VStr "" :: VFun handler :: more) s
    = (Normal tt,
       {| current := w1;
          registered := registered s ++
            [listener_hook eventName (VFun (fresh (dom (functions (current s))))) options] |}) ∧
    functions w1
    = <[fresh (dom (functions (current s))) :=
          Bound (VFun handler) (VObj (self (comp (current s))))]> (functions (current s)) ∧
    listeners w1 = listeners (current s) ∧
    comp w1 = comp (current s) ∧
    document w1 = document (current s) ∧
    trace w1 = trace (current s).
Proof.
  unfold useListener. rewrite !argument_cons.
  change (argument 0 (VStr "" :: VFun handler :: more)) with (VStr "").
  change (argument 0 (VFun handler :: more)) with (VFun handler).
  cbn [typeof].
  rewrite (bool_decide_eq_true_2 ("string" = "string")) by reflexivity.
  cbn [negb].
  destruct (argument 0 more) eqn:Hdefault;
    (unfold bind, ret, lift, useComponent, read, useEffect, new_object, new_function;
     cbn -[fresh bool_decide addEventListener removeEventListener];
     rewrite (bool_decide_eq_true_2 ("function" = "function")) by reflexivity;
     cbn -[fresh addEventListener removeEventListener];
     eexists _, _; split; [reflexivity | repeat split]).
  Unshelve. all: exact (argument 0 more).
Qed.

Section BoundListener.

Variables (depth : nat) (eventName : string) (f handler : nat) (this : val)
          (b : behaviour) (page : world).

Hypothesis depth_enough : (2 ≤ depth)%nat.
Hypothesis bound : functions page !! f = Some (Bound (VFun handler) this).
Hypothesis outside : functions page !! handler = Some (External b).
Hypothesis registered_on_root :
  ∀ p, listeners_for (Element p) eventName page
       = if bool_decide (p = el (comp page)) then [VFun f] else [].

Lemma bound_call (this' ev : val) (w : world) :
  same_page page w →
  trace (call_function depth (VFun f) this' [ev] w).2
  = (trace w ++ [Invoked handler this [ev]])%list.
Proof.
  intros (Hfun & _). destruct depth as [| [| d]]; [lia | lia |].
  cbn [call_function]. rewrite Hfun, bound, outside. apply trace_call_external.
Qed.

Lemma bound_propagate (ev : val) (path : node) (w : world) :
  same_page page w →
  trace (propagate (call_function depth) path eventName ev w)
  = (trace w ++
       if inside (el (comp page)) path then [Invoked handler this [ev]] else [])%list.
Proof.
  revert w. induction path as [| i parent IH]; intros w Hsame.
  - cbn [propagate]. unfold deliver.
    rewrite (listeners_for_same_page _ _ _ _ Hsame), registered_on_root.
    unfold inside. case_bool_decide as Hroot.
    + rewrite bool_decide_eq_true_2 by (rewrite <- Hroot; reflexivity).
      cbn [invoke_listeners]. apply bound_call. exact Hsame.
    + rewrite bool_decide_eq_false_2.
      * cbn [invoke_listeners]. rewrite app_nil_r. reflexivity.
      * intros Hsuf. apply suffix_nil_inv in Hsuf. congruence.
  - cbn [propagate]. unfold deliver.
    rewrite (listeners_for_same_page _ _ _ _ Hsame), registered_on_root.
    unfold inside. case_bool_decide as Hroot.
    + rewrite (bool_decide_eq_true_2 (el (comp page) `suffix_of` i :: parent))
        by (rewrite <- Hroot; reflexivity).
      cbn [invoke_listeners].
      rewrite IH.
      * unfold inside.
        rewrite (bool_decide_eq_false_2 (el (comp page) `suffix_of` parent)).
        -- rewrite app_nil_r. apply bound_call. exact Hsame.
        -- rewrite <- Hroot. intros Hsuf. apply suffix_length in Hsuf.
           cbn [length] in Hsuf. lia.
      * eapply same_page_trans; [exact Hsame | apply same_page_call_function].
    + cbn [invoke_listeners]. rewrite IH by exact Hsame. unfold inside.
      assert (Hiff : el (comp page) `suffix_of` parent
                     ↔ el (comp page) `suffix_of` i :: parent).
      { split; [apply suffix_cons_r |].
        intros [[| j k] Hk]; cbn [app] in Hk.
        - congruence.
        - injection Hk as _ ->. apply suffix_app_r. reflexivity. }
      rewrite (bool_decide_ext _ _ Hiff). reflexivity.
Qed.

End BoundListener.

(** Where nobody listens, an event changes nothing. *)
Lemma dispatch_dom_unheard (depth : nat) (target : node) (eventName : string) (w : world) :
  unheard eventName w → dispatch_dom depth target eventName w = w.
Proof.
  intros Hun. unfold dispatch_dom.
  generalize (VEvent eventName (Element target)). intros ev.
  induction target as [| i parent IH]; cbn [propagate]; unfold deliver;
    rewrite (listeners_for_unheard _ _ _ Hun); cbn [invoke_listeners];
    [reflexivity | exact IH].
Qed.

Lemma root_listener_registered (eventName : string) (l : val) (w1 : world) (p : node) :
  unheard eventName w1 →
  listeners_for (Element p) eventName
    (set_listeners (listeners w1 ++ [(Element (el (comp w1)), eventName, l)]) w1)
  = if bool_decide (p = el (comp w1)) then [l] else [].
Proof.
  intros Hun. rewrite listeners_for_app.
  rewrite (listeners_for_unheard _ _ _ Hun). cbn [app].
  unfold listeners_for. cbn [listeners set_listeners omap list_omap fst snd].
  destruct (decide (p = el (comp w1))) as [-> | Hne].
  - rewrite !bool_decide_eq_true_2 by auto. reflexivity.
  - rewrite (bool_decide_eq_false_2 (p = el (comp w1))) by exact Hne.
    rewrite bool_decide_eq_false_2 by (intros [Heq _]; congruence).
    reflexivity.
Qed.

(** The cleanup of the listener effect leaves nobody listening. *)
Lemma root_listener_removed (eventName : string) (l options : val) (w1 w' : world) :
  unheard eventName w1 →
  same_page (set_listeners (listeners w1 ++ [(Element (el (comp w1)), eventName, l)]) w1) w' →
  unheard eventName
    (removeEventListener (Element (el (comp w'))) eventName l options w').
Proof.
  intros Hun (_ & Hlis & Hcomp & _) r Hr.
  unfold removeEventListener in Hr. cbn [listeners set_listeners] in Hr.
  rewrite Hlis, Hcomp in Hr. cbn [listeners comp set_listeners] in Hr.
  apply list_elem_of_filter in Hr as [Hne Hr].
  apply elem_of_app in Hr as [Hr | Hr]; [apply Hun, Hr |].
  apply list_elem_of_singleton in Hr. contradiction.
Qed.

Lemma unheard_same_page (eventName : string) (w w' : world) :
  same_page w w' → unheard eventName w → unheard eventName w'.
Proof. intros (_ & Hlis & _) Hun. unfold unheard. rewrite Hlis. exact Hun. Qed.

(** After the teardown of a component whose only effect is the listener
    effect, events of the type change nothing any more. *)
Lemma listener_effect_teardown (depth : nat) (eventName : string) (l options : val)
    (w1 : world) (before after : list moment) (target : node) :
  unheard eventName w1 →
  let st := live depth (fun w => w) before (mount [listener_hook eventName l options] w1) in
  let st' := live depth (fun w => w) after ([], unmount st.1 st.2) in
  dispatch_dom depth target eventName st'.2 = st'.2.
Proof.
  intros Hun. cbn zeta. rewrite listener_mounted by exact Hun.
  set (w2 := set_listeners _ w1).
  set (m := {| hook := _; dependencies := _; cleanup_fn := _ |}).
  destruct (live_no_dependencies depth before [m] w2) as (w' & Hlive & Hsame).
  { intros m' Hm' w0. apply list_elem_of_singleton in Hm'. subst m'. reflexivity. }
  rewrite Hlive. cbn [fst snd unmount onWillUnmount run_cleanup m cleanup_fn].
  pose proof (root_listener_removed eventName l options w1 w' Hun Hsame) as Hun3.
  destruct (live_no_dependencies depth after []
              (removeEventListener (Element (el (comp w'))) eventName l options w'))
    as (w4 & Hlive4 & Hsame4).
  { intros m' Hm'. inversion Hm'. }
  rewrite Hlive4. cbn [snd].
  apply dispatch_dom_unheard. eapply unheard_same_page; eassumption.
Qed.

(** While the component is mounted, the bound handler runs for every event
    fired inside the root. *)
Lemma listener_effect_bound (depth : nat) (eventName : string) (f handler : nat)
    (this options : val) (b : behaviour) (w1 : world) (before : list moment)
    (target : node) :
  functions w1 !! f = Some (Bound (VFun handler) this) →
  functions w1 !! handler = Some (External b) →
  unheard eventName w1 →
  (2 ≤ depth)%nat →
  let st := live depth (fun w => w) before
              (mount [listener_hook eventName (VFun f) options] w1) in
  trace (dispatch_dom depth target eventName st.2)
  = (trace st.2 ++
       if inside (el (comp w1)) target
       then [Invoked handler this [VEvent eventName (Element target)]]
       else [])%list.
Proof.
  intros Hf Hh Hun Hdepth. cbn zeta. rewrite listener_mounted by exact Hun.
  set (w2 := set_listeners _ w1).
  set (m := {| hook := _; dependencies := _; cleanup_fn := _ |}).
  destruct (live_no_dependencies depth before [m] w2) as (w' & Hlive & Hsame).
  { intros m' Hm' w0. apply list_elem_of_singleton in Hm'. subst m'. reflexivity. }
  rewrite Hlive. cbn [snd]. unfold dispatch_dom.
  rewrite (bound_propagate depth eventName f handler this b w2); try assumption.
  - reflexivity.
  - intros p. exact (root_listener_registered eventName (VFun f) w1 p Hun).
Qed.



(** X2: the listener that [useListener] registers with a selector is
    removed at the teardown: whatever happened while the component was
    mounted, an event of the type fired afterwards changes nothing, so the
    handler is not called. *)
Theorem useListener_selector_teardown (eventName querySelector : string) (handler : nat)
    (more : list val) (s : setup_state) (depth : nat) :
  querySelector ≠ "" →
  registered s = [] →
  unheard eventName (current s) →
  ∃ s',
    useListener eventName (VStr querySelector :: VFun handler :: more) s
    = (Normal tt, s') ∧
    ∀ (before after : list moment) (target : node),
      let st := live depth (fun w => w) before (mount (registered s') (current s')) in
      let st' := live depth (fun w => w) after ([], unmount st.1 st.2) in
      dispatch_dom depth target eventName st'.2 = st'.2.
Proof.
  intros Hsel Hreg Hun.
  destruct (useListener_with_selector eventName querySelector handler more s Hsel)
    as (options & w1 & Hsetup & _ & Hlis1 & _).
  eexists. split; [exact Hsetup |].
  intros before after target. cbn zeta. cbn [current registered]. rewrite Hreg. cbn [app].
  assert (Hun1 : unheard eventName w1) by (unfold unheard; rewrite Hlis1; exact Hun).
  apply (listener_effect_teardown depth eventName _ options w1 before after target Hun1).
Qed.

Lemma useListener_selector_teardown_witness :
  ∃ s',
    useListener "click" [VStr "button"; VFun 2] (Example.at_setup Example.desktop)
    = (Normal tt, s') ∧
    ∀ (before after : list moment) (target : node),
      let st := live 2 (fun w => w) before (mount (registered s') (current s')) in
      let st' := live 2 (fun w => w) after ([], unmount st.1 st.2) in
      dispatch_dom 2 target "click" st'.2 = st'.2.
Proof.
  apply (useListener_selector_teardown "click" "button" 2 []
           (Example.at_setup Example.desktop) 2).
  - discriminate.
  - reflexivity.
  - intros r Hr. inversion Hr.
Defined.



(** Off the root's subtree the loop never meets the root: it visits every
    ancestor of the target. *)
Lemma chain_outside (root el : node) :
  inside root el = false → chain root el = ancestors el.
Proof.
  unfold inside. intros Hout. apply bool_decide_eq_false in Hout.
  induction el as [| i parent IH]; cbn [chain ancestors].
  - rewrite bool_decide_eq_false_2; [reflexivity |].
    intros <-. apply Hout. reflexivity.
  - rewrite bool_decide_eq_false_2 by (intros <-; apply Hout; reflexivity).
    rewrite IH; [reflexivity |].
    intros Hsuf. apply Hout. apply suffix_cons_r. exact Hsuf.
Qed.

(** X4: the bound handler of [useListener] with a selector, handed an event
    whose target is outside the component's root (an altered target, as the
    comment in the source warns): the walk is not stopped by the root, and
    the handler is called exactly when the target or any of its ancestors
    matches the selector. *)
Theorem boundHandler_target_outside_root (eventName querySelector : string)
    (handler : nat) (b : behaviour) (more : list val) (s : setup_state) (depth : nat) :
  querySelector ≠ "" →
  functions (current s) !! handler = Some (External b) →
  (2 ≤ depth)%nat →
  ∃ s' f,
    useListener eventName (VStr querySelector :: VFun handler :: more) s
    = (Normal tt, s') ∧
    functions (current s') !! f = Some (Delegate querySelector (VFun handler)) ∧
    ∀ (w : world) (this : val) (target : node),
      same_page (current s') w →
      inside (el (comp (current s))) target = false →
      trace (call_function depth (VFun f) this [VEvent eventName (Element target)] w).2
      = (trace w ++
           if some_match (current s) querySelector (ancestors target)
           then [Invoked handler (this_component (current s))
                         [VEvent eventName (Element target)]]
           else [])%list.
Proof.
  intros Hsel Hout Hdepth.
  destruct (useListener_with_selector eventName querySelector handler more s Hsel)
    as (options & w1 & Hsetup & Hfun1 & Hlis1 & Hcomp1 & Hdoc1 & _).
  assert (Hfresh : functions (current s) !! fresh (dom (functions (current s))) = None)
    by (apply not_elem_of_dom, is_fresh).
  eexists _, (fresh (dom (functions (current s)))). split; [exact Hsetup |].
  cbn [current].
  assert (Hf : functions w1 !! fresh (dom (functions (current s)))
               = Some (Delegate querySelector (VFun handler)))
    by (rewrite Hfun1; apply lookup_insert_eq).
  assert (Hh : functions w1 !! handler = Some (External b)).
  { rewrite Hfun1. rewrite lookup_insert_ne by (intros Heq; rewrite Heq in Hfresh; congruence).
    exact Hout. }
  split; [exact Hf |].
  intros w this target Hsame Houtside.
  rewrite (delegate_call depth eventName querySelector _ handler b w1 Hdepth Hf Hh
             this target w Hsame).
  rewrite Hcomp1, (chain_outside _ _ Houtside).
  unfold some_match, this_component. rewrite Hdoc1, Hcomp1. reflexivity.
Qed.

Lemma boundHandler_target_outside_root_witness :
  ∃ s' f,
    useListener "click" [VStr "button"; VFun 2] (Example.at_setup Example.desktop)
    = (Normal tt, s') ∧
    functions (current s') !! f = Some (Delegate "button" (VFun 2)) ∧
    ∀ (w : world) (this : val) (target : node),
      same_page (current s') w →
      inside (el (comp (current (Example.at_setup Example.desktop)))) target = false →
      trace (call_function 2 (VFun f) this [VEvent "click" (Element target)] w).2
      = (trace w ++
           if some_match (current (Example.at_setup Example.desktop)) "button"
                         (ancestors target)
           then [Invoked 2 (this_component (current (Example.at_setup Example.desktop)))
                         [VEvent "click" (Element target)]]
           else [])%list.
Proof.
  apply (boundHandler_target_outside_root "click" "button" 2 (Returns VUndefined) []
           (Example.at_setup Example.desktop) 2).
  - discriminate.
  - vm_compute. reflexivity.
  - lia.
Defined.

(** ** useBus: teardown undoes the mount *)

Lemma filter_ne_fresh {A : Type} `{EqDecision A} (r : A) (l : list A) :
  r ∉ l → filter (λ x, x ≠ r) (l ++ [r])%list = l.
Proof.
  intros Hnot. rewrite filter_app.
  rewrite filter_cons, decide_False by (intros H; apply H; reflexivity).
  rewrite filter_nil, app_nil_r.
  induction l as [| a l IH]; [reflexivity |].
  apply not_elem_of_cons in Hnot as [Hne Hnot].
  rewrite filter_cons, decide_True by congruence.
  rewrite IH by exact Hnot. reflexivity.
Qed.

Lemma bus_mounted_fresh (self bus : nat) (eventName : string) (callback : nat) (w : world) :
  listeners_allocated w →
  mount [bus_hook self bus eventName callback] w
  = ([{| hook := bus_hook self bus eventName callback;
         dependencies := [];
         cleanup_fn := Some (removeEventListener (Bus bus) eventName
                               (VFun (fresh (dom (functions w)))) VUndefined) |}],
     set_listeners (listeners w ++ [(Bus bus, eventName, VFun (fresh (dom (functions w))))])
       (set_functions (<[fresh (dom (functions w)) := Bound (VFun callback) (VObj self)]>
                         (functions w)) w)) ∧
  (Bus bus, eventName, VFun (fresh (dom (functions w)))) ∉ listeners w.
Proof.
  intros Halloc.
  assert (Hnot : (Bus bus, eventName, VFun (fresh (dom (functions w)))) ∉ listeners w).
  { intros Hin. apply Halloc in Hin. revert Hin. apply is_fresh. }
  split; [| exact Hnot].
  cbn [mount]. unfold onMounted.
  cbn [bus_hook computeDependencies effect]. unfold new_function, addEventListener.
  cbn [listeners set_functions].
  rewrite bool_decide_eq_false_2 by exact Hnot. reflexivity.
Qed.

(** X5: the cleanup of [useBus] removes exactly the listener that its effect
    added.  Whatever other listeners are registered (all of them existing
    functions), while the component is mounted they are followed by one new
    listener on the bus, and after the teardown the registrations are those
    from before the mount, in the same order. *)
Theorem useBus_teardown_restores (bus : nat) (eventName : string) (callback : nat)
    (s : setup_state) (depth : nat) :
  registered s = [] →
  listeners_allocated (current s) →
  ∃ s' listener,
    useBus bus eventName callback s = (Normal tt, s') ∧
    ((Bus bus, eventName, listener) ∉ listeners (current s)) ∧
    ∀ before : list moment,
      let st := live depth (fun w => w) before (mount (registered s') (current s')) in
      listeners st.2 = (listeners (current s) ++ [(Bus bus, eventName, listener)])%list ∧
      listeners (unmount st.1 st.2) = listeners (current s).
Proof.
  intros Hreg Halloc.
  exists {| current := current s;
            registered := registered s ++
              [bus_hook (self (comp (current s))) bus eventName callback] |},
         (VFun (fresh (dom (functions (current s))))).
  split; [apply useBus_setup |].
  destruct (bus_mounted_fresh (self (comp (current s))) bus eventName callback
              (current s) Halloc) as [Hmount Hnot].
  split; [exact Hnot |].
  intros before. cbn zeta. cbn [current registered]. rewrite Hreg. cbn [app].
  rewrite Hmount.
  set (w2 := set_listeners _ _).
  set (m := {| hook := _; dependencies := _; cleanup_fn := _ |}).
  destruct (live_no_dependencies depth before [m] w2) as (w' & Hlive & Hsame).
  { intros m' Hm' w0. apply list_elem_of_singleton in Hm'. subst m'. reflexivity. }
  rewrite Hlive. cbn [fst snd]. destruct Hsame as (_ & Hlis & _).
  split; [rewrite Hlis; reflexivity |].
  cbn [unmount onWillUnmount run_cleanup m cleanup_fn].
  unfold removeEventListener. cbn [listeners set_listeners]. rewrite Hlis.
  unfold w2. cbn [listeners set_listeners set_functions].
  apply filter_ne_fresh. exact Hnot.
Qed.

Lemma useBus_teardown_restores_witness :
  ∃ s' listener,
    useBus 3 "notify" 2 (Example.at_setup Example.desktop) = (Normal tt, s') ∧
    ((Bus 3, "notify", listener)
       ∉ listeners (current (Example.at_setup Example.desktop))) ∧
    ∀ before : list moment,
      let st := live 2 (fun w => w) before (mount (registered s') (current s')) in
      listeners st.2
      = (listeners (current (Example.at_setup Example.desktop))
           ++ [(Bus 3, "notify", listener)])%list ∧
      listeners (unmount st.1 st.2) = listeners (current (Example.at_setup Example.desktop)).
Proof.
  apply (useBus_teardown_restores 3 "notify" 2 (Example.at_setup Example.desktop) 2).
  - reflexivity.
  - intros t type f Hin. inversion Hin.
Defined.

(** ** useAutofocus: absent and changing elements, several hooks *)

(** The effect leaves the variables and the component alone. *)
Lemma focus_effect_keeps (deps : list val) (w : world) :
  cells (focus_effect deps w).1 = cells w ∧ comp (focus_effect deps w).1 = comp w.
Proof.
  unfold focus_effect. destruct (truthy (argument 0 deps)); [| auto].
  destruct (argument 0 deps) as [| | | | | | | | [n | b] | | | |]; auto.
  destruct (bool_decide _); auto.
Qed.

Lemma onPatched_autofocus_keeps (name : string) (c : nat) (m : mounted_effect) (w : world) :
  hook m = autofocus_hook name c →
  cleanup_fn m = None →
  cells (onPatched m w).2 = cells w ∧ comp (onPatched m w).2 = comp w.
Proof.
  intros Hhook Hclean. unfold onPatched. rewrite Hhook, Hclean.
  cbn [autofocus_hook computeDependencies effect run_cleanup].
  destruct (some_changed _ _); [| auto].
  pose proof (focus_effect_keeps [ref_el name w; VNum (read_cell c w)] w) as Hkeep.
  destruct (focus_effect _ w) as [w' cl]. exact Hkeep.
Qed.

(** X6: while the reference resolves to no element, the effect of
    [useAutofocus] does nothing: the mount leaves the world as it is, and so
    does an update, also after the returned function was called (the effect
    runs again, with [null]). *)
Theorem useAutofocus_absent_element (refName : option string) (s : setup_state) :
  truthy (isSmall (env (comp (current s)))) = false →
  ∃ trigger h s',
    useAutofocus refName s = (Normal trigger, s') ∧
    registered s' = (registered s ++ [h])%list ∧
    ∀ w, refs (comp w) !! default "autofocus" refName = None →
         (onMounted h w).2 = w ∧
         ∀ m, hook m = h → cleanup_fn m = None →
              (onPatched m w).2 = w ∧
              (onPatched m (trigger w)).2 = trigger w.
Proof.
  intros Hsmall.
  eexists _, _, _. split; [apply (useAutofocus_desktop refName s Hsmall) |].
  split; [reflexivity |].
  set (name := default "autofocus" refName).
  set (c := fresh (dom (cells (current s)))).
  intros w Href.
  assert (Hnull : ∀ w0, refs (comp w0) = refs (comp w) → ref_el name w0 = VNull).
  { intros w0 Heq. unfold ref_el. rewrite Heq, Href. reflexivity. }
  assert (Hpatch : ∀ m w0, refs (comp w0) = refs (comp w) →
                           hook m = autofocus_hook name c → cleanup_fn m = None →
                           (onPatched m w0).2 = w0).
  { intros m w0 Heq Hhook Hclean. unfold onPatched. rewrite Hhook, Hclean.
    cbn [autofocus_hook computeDependencies effect run_cleanup].
    rewrite (Hnull w0 Heq). destruct (some_changed _ _); reflexivity. }
  split.
  - unfold onMounted. cbn [autofocus_hook computeDependencies effect].
    rewrite (Hnull w eq_refl). reflexivity.
  - intros m Hhook Hclean. split; apply Hpatch; try assumption; reflexivity.
Qed.

Lemma useAutofocus_absent_element_witness :
  ∃ trigger h s',
    useAutofocus (Some "search") (Example.at_setup Example.desktop) = (Normal trigger, s') ∧
    registered s' = (registered (Example.at_setup Example.desktop) ++ [h])%list ∧
    ∀ w, refs (comp w) !! default "autofocus" (Some "search") = None →
         (onMounted h w).2 = w ∧
         ∀ m, hook m = h → cleanup_fn m = None →
              (onPatched m w).2 = w ∧
              (onPatched m (trigger w)).2 = trigger w.
Proof.
  apply (useAutofocus_absent_element (Some "search") (Example.at_setup Example.desktop)).
  reflexivity.
Defined.

(** X7: when the reference resolves to another element than at the last run
    of the effect (or to an element after none), the next update focuses the
    new element, without any call of the returned function. *)
Theorem useAutofocus_element_changes (refName : option string) (s : setup_state) :
  truthy (isSmall (env (comp (current s)))) = false →
  ∃ trigger h s',
    useAutofocus refName s = (Normal trigger, s') ∧
    registered s' = (registered s ++ [h])%list ∧
    ∀ m w0 w el,
      hook m = h → cleanup_fn m = None →
      dependencies m = computeDependencies h w0 →
      ref_el (default "autofocus" refName) w0 ≠ VTarget (Element el) →
      refs (comp w) !! default "autofocus" refName = Some el →
      trace (onPatched m w).2 = (trace w ++ [Focused el])%list ∧
      dependencies (onPatched m w).1 = computeDependencies h w.
Proof.
  intros Hsmall.
  eexists _, _, _. split; [apply (useAutofocus_desktop refName s Hsmall) |].
  split; [reflexivity |].
  set (name := default "autofocus" refName).
  set (c := fresh (dom (cells (current s)))).
  intros m w0 w el Hhook Hclean Hdeps Hold Href.
  unfold onPatched. rewrite Hhook, Hdeps, Hclean.
  cbn [autofocus_hook computeDependencies effect run_cleanup].
  rewrite (ref_el_element name el w Href).
  assert (Hch : some_changed [VTarget (Element el); VNum (read_cell c w)]
                             [ref_el name w0; VNum (read_cell c w0)] = true).
  { cbn [some_changed hd tl]. unfold strict_neq.
    rewrite (bool_decide_eq_true_2 (VTarget (Element el) ≠ ref_el name w0))
      by (intros Heq; apply Hold; symmetry; exact Heq).
    reflexivity. }
  rewrite Hch.
  pose proof (focus_effect_frame el [VNum (read_cell c w)] w) as (Htr & _).
  destruct (focus_effect _ w) as [w' cl]. cbn [fst snd] in *.
  split; [exact Htr | reflexivity].
Qed.

Lemma useAutofocus_element_changes_witness :
  ∃ trigger h s',
    useAutofocus None (Example.at_setup Example.desktop) = (Normal trigger, s') ∧
    registered s' = (registered (Example.at_setup Example.desktop) ++ [h])%list ∧
    ∀ m w0 w el,
      hook m = h → cleanup_fn m = None →
      dependencies m = computeDependencies h w0 →
      ref_el (default "autofocus" None) w0 ≠ VTarget (Element el) →
      refs (comp w) !! default "autofocus" None = Some el →
      trace (onPatched m w).2 = (trace w ++ [Focused el])%list ∧
      dependencies (onPatched m w).1 = computeDependencies h w.
Proof.
  apply (useAutofocus_element_changes None (Example.at_setup Example.desktop)).
  reflexivity.
Defined.

Lemma read_cell_focusOnUpdate_other (c c' : nat) (w : world) :
  c ≠ c' → read_cell c' (focusOnUpdate c w) = read_cell c' w.
Proof.
  intros Hne. unfold read_cell, focusOnUpdate. cbn [cells set_cells].
  rewrite lookup_insert_ne by exact Hne. reflexivity.
Qed.

Lemma autofocus_state_keeps (name : string) (c : nat) (m : mounted_effect) (w w' : world) :
  comp w' = comp w → read_cell c w' = read_cell c w →
  autofocus_state name c m w → autofocus_state name c m w'.
Proof.
  intros Hcomp Hread (Hhook & Hclean & Hdeps).
  split; [exact Hhook |]. split; [exact Hclean |].
  rewrite Hdeps, Hread. unfold ref_el. rewrite Hcomp. reflexivity.
Qed.

(** X8: two calls of [useAutofocus] in one setup get a count each.  Calling
    the function returned by one of them makes the next update focus the
    element of that hook only; the other hook's effect does not run. *)
Theorem useAutofocus_independent_counts (a b : string) (s : setup_state) :
  truthy (isSmall (env (comp (current s)))) = false →
  ∃ t1 s1 t2 s2 h1 h2 c1 c2,
    useAutofocus (Some a) s = (Normal t1, s1) ∧
    useAutofocus (Some b) s1 = (Normal t2, s2) ∧
    registered s2 = (registered s ++ [h1; h2])%list ∧
    c1 ≠ c2 ∧
    (∀ w, computeDependencies h1 w = [ref_el a w; VNum (read_cell c1 w)]) ∧
    (∀ w, computeDependencies h2 w = [ref_el b w; VNum (read_cell c2 w)]) ∧
    ∀ m1 m2 w ela elb,
      hook m1 = h1 → cleanup_fn m1 = None →
      dependencies m1 = computeDependencies h1 w →
      hook m2 = h2 → cleanup_fn m2 = None →
      dependencies m2 = computeDependencies h2 w →
      refs (comp w) !! a = Some ela →
      refs (comp w) !! b = Some elb →
      read_cell c1 w < 2 ^ 53 →
      read_cell c2 w < 2 ^ 53 →
      trace (patch [m1; m2] (t1 w)).2 = (trace w ++ [Focused ela])%list ∧
      trace (patch [m1; m2] (t2 w)).2 = (trace w ++ [Focused elb])%list.
Proof.
  intros Hsmall.
  set (c1 := fresh (dom (cells (current s)))).
  set (w1 := set_cells (<[c1 := 0]> (cells (current s))) (current s)).
  set (s1 := {| current := w1; registered := registered s ++ [autofocus_hook a c1] |}).
  set (c2 := fresh (dom (cells w1))).
  exists (focusOnUpdate c1), s1, (focusOnUpdate c2).
  eexists. exists (autofocus_hook a c1), (autofocus_hook b c2), c1, c2.
  split; [apply (useAutofocus_desktop (Some a) s Hsmall) |].
  split; [apply (useAutofocus_desktop (Some b) s1 Hsmall) |].
  split; [cbn [registered s1]; rewrite <- app_assoc; reflexivity |].
  assert (Hne : c1 ≠ c2).
  { intros Heq. apply (is_fresh (dom (cells w1))). fold c2. rewrite <- Heq.
    unfold w1. cbn [cells set_cells]. rewrite dom_insert_L.
    apply elem_of_union_l, elem_of_singleton. reflexivity. }
  split; [exact Hne |]. split; [reflexivity |]. split; [reflexivity |].
  intros m1 m2 w ela elb Hh1 Hcl1 Hd1 Hh2 Hcl2 Hd2 Hra Hrb Hlt1 Hlt2.
  assert (Hst1 : autofocus_state a c1 m1 w) by (repeat split; assumption).
  assert (Hst2 : autofocus_state b c2 m2 w) by (repeat split; assumption).
  split.
  - destruct (autofocus_forced a c1 ela m1 w Hst1 Hra Hlt1) as (_ & Htr & _ & Hcomp).
    destruct (onPatched_autofocus_keeps a c1 m1 (focusOnUpdate c1 w) Hh1 Hcl1)
      as [Hcells _].
    cbn [patch].
    destruct (onPatched m1 (focusOnUpdate c1 w)) as [m1' w'] eqn:E1. cbn [fst snd] in *.
    assert (Hst2' : autofocus_state b c2 m2 w').
    { apply (autofocus_state_keeps b c2 m2 w w'); [exact Hcomp | | exact Hst2].
      unfold read_cell at 1. rewrite Hcells.
      apply (read_cell_focusOnUpdate_other c1 c2 w Hne). }
    rewrite (autofocus_unforced b c2 m2 w' Hst2'). cbn [snd]. exact Htr.
  - assert (Hst1' : autofocus_state a c1 m1 (focusOnUpdate c2 w)).
    { apply (autofocus_state_keeps a c1 m1 w); [reflexivity | | exact Hst1].
      apply read_cell_focusOnUpdate_other. congruence. }
    cbn [patch]. rewrite (autofocus_unforced a c1 m1 _ Hst1').
    destruct (autofocus_forced b c2 elb m2 w Hst2 Hrb Hlt2) as (_ & Htr & _).
    destruct (onPatched m2 (focusOnUpdate c2 w)) as [m2' w'] eqn:E2. cbn [fst snd] in *.
    exact Htr.
Qed.

Lemma useAutofocus_independent_counts_witness :
  ∃ t1 s1 t2 s2 h1 h2 c1 c2,
    useAutofocus (Some "autofocus") (Example.at_setup Example.desktop) = (Normal t1, s1) ∧
    useAutofocus (Some "search") s1 = (Normal t2, s2) ∧
    registered s2 = (registered (Example.at_setup Example.desktop) ++ [h1; h2])%list ∧
    c1 ≠ c2 ∧
    (∀ w, computeDependencies h1 w = [ref_el "autofocus" w; VNum (read_cell c1 w)]) ∧
    (∀ w, computeDependencies h2 w = [ref_el "search" w; VNum (read_cell c2 w)]) ∧
    ∀ m1 m2 w ela elb,
      hook m1 = h1 → cleanup_fn m1 = None →
      dependencies m1 = computeDependencies h1 w →
      hook m2 = h2 → cleanup_fn m2 = None →
      dependencies m2 = computeDependencies h2 w →
      refs (comp w) !! "autofocus" = Some ela →
      refs (comp w) !! "search" = Some elb →
      read_cell c1 w < 2 ^ 53 →
      read_cell c2 w < 2 ^ 53 →
      trace (patch [m1; m2] (t1 w)).2 = (trace w ++ [Focused ela])%list ∧
      trace (patch [m1; m2] (t2 w)).2 = (trace w ++ [Focused elb])%list.
Proof.
  apply (useAutofocus_independent_counts "autofocus" "search"
           (Example.at_setup Example.desktop)).
  reflexivity.
Defined.

(** ** useService: what the guarded service looks like *)

Lemma only_heap_refl (w : world) : only_heap w w.
Proof. repeat split. Qed.

Lemma only_heap_trans (w1 w2 w3 : world) :
  only_heap w1 w2 → only_heap w2 w3 → only_heap w1 w3.
Proof.
  intros (? & ? & ? & ? & ? & ? & ?) (? & ? & ? & ? & ? & ? & ?).
  repeat split; congruence.
Qed.

Lemma get_property_direct (ls : nat) (os : object) (k : string) (w : world) :
  objects w !! ls = Some os →
  reads_directly os k →
  get_property (VObj ls) k w = Normal (default VUndefined (props os !! k)).
Proof.
  intros Hobj Hdirect. unfold get_property. cbn [lookup_chain]. rewrite Hobj.
  destruct (props os !! k) as [v |] eqn:Hk; [reflexivity |].
  destruct Hdirect as [[v Hv] | Hproto]; [congruence |].
  rewrite Hproto. destruct (size (objects w)); reflexivity.
Qed.

(** The loop of [useService] over the guarded methods. *)
Lemma protect_methods_result (ls l : nat) (os : object) (methods : list string)
    (s0 s1 : setup_state) (o0 : object) :
  l ≠ ls →
  objects (current s0) !! ls = Some os →
  objects (current s0) !! l = Some o0 →
  protect_methods (VObj ls) (VObj l) methods s0 = (Normal tt, s1) →
  ∃ o1,
    objects (current s1) !! l = Some o1 ∧
    proto o1 = proto o0 ∧
    (∀ k, k ∉ methods → props o1 !! k = props o0 !! k) ∧
    (∀ k, k ∈ methods →
          ∃ id fn,
            props o1 !! k = Some (VFun id) ∧
            functions (current s1) !! id = Some (Protected (VObj ls) fn) ∧
            functions (current s0) !! id = None ∧
            (reads_directly os k → fn = default VUndefined (props os !! k))) ∧
    (∀ x, x ≠ l → objects (current s1) !! x = objects (current s0) !! x) ∧
    (∀ id c, functions (current s0) !! id = Some c →
             functions (current s1) !! id = Some c) ∧
    registered s1 = registered s0 ∧
    only_heap (current s0) (current s1).
Proof.
  intros Hne. revert s0 o0.
  induction methods as [| method methods IH]; intros s0 o0 Hls Hl Hrun.
  - cbn [protect_methods] in Hrun. injection Hrun as <-.
    exists o0. split; [exact Hl |]. split; [reflexivity |]. split; [auto |].
    split; [intros k Hk; inversion Hk |]. split; [auto |]. split; [auto |].
    split; [reflexivity | apply only_heap_refl].
  - cbn [protect_methods] in Hrun.
    unfold bind at 1 in Hrun. unfold lift_completion at 1 in Hrun.
    destruct (get_property (VObj ls) method (current s0)) as [fn | e] eqn:Hget;
      [| discriminate Hrun].
    unfold bind at 1 in Hrun. unfold lift at 1, _protectMethod, new_function in Hrun.
    cbn [fst snd current registered] in Hrun.
    unfold bind at 1 in Hrun. unfold lift at 1 in Hrun.
    cbn [fst snd current registered] in Hrun.
    set (f := fresh (dom (functions (current s0)))) in *.
    assert (Hfresh : functions (current s0) !! f = None)
      by (apply not_elem_of_dom, is_fresh).
    unfold set_property in Hrun. cbn [objects set_functions] in Hrun.
    rewrite Hl in Hrun.
    match type of Hrun with
    | protect_methods _ _ _ ?s = _ =>
        destruct (IH s {| proto := proto o0; props := <[method := VFun f]> (props o0) |})
          as (o1 & Hl1 & Hproto1 & Hother1 & Hin1 & Hobjs1 & Hfuns1 & Hreg1 & Hheap1)
    end.
    + cbn [current objects set_objects set_functions].
      rewrite lookup_insert_ne by exact Hne. exact Hls.
    + cbn [current objects set_objects set_functions]. apply lookup_insert_eq.
    + exact Hrun.
    + cbn [current objects functions set_objects set_functions registered proto props] in *.
      exists o1. split; [exact Hl1 |]. split; [exact Hproto1 |]. split; [| split].
      * intros k Hk. apply not_elem_of_cons in Hk as [Hkm Hk].
        rewrite (Hother1 k Hk). apply lookup_insert_ne. congruence.
      * intros k Hk. destruct (decide (k ∈ methods)) as [Hmem | Hmem].
        -- destruct (Hin1 k Hmem) as (id & fn' & Hprop & Hid & Hnew & Hread).
           exists id, fn'. split; [exact Hprop |]. split; [exact Hid |]. split; [| exact Hread].
           destruct (decide (id = f)) as [-> | Hidf]; [exact Hfresh |].
           rewrite lookup_insert_ne in Hnew by congruence. exact Hnew.
        -- apply elem_of_cons in Hk as [-> | Hk]; [| contradiction].
           exists f, fn. split; [| split; [| split]].
           ++ rewrite (Hother1 method Hmem). apply lookup_insert_eq.
           ++ apply Hfuns1. apply lookup_insert_eq.
           ++ exact Hfresh.
           ++ intros Hdirect.
              rewrite (get_property_direct ls os method (current s0) Hls Hdirect) in Hget.
              injection Hget as <-. reflexivity.
      * split; [| split; [| split]].
        -- intros x Hx. rewrite (Hobjs1 x Hx). apply lookup_insert_ne. congruence.
        -- intros id c Hid. apply Hfuns1.
           rewrite lookup_insert_ne by (intros Heq; rewrite Heq in Hfresh; congruence).
           exact Hid.
        -- exact Hreg1.
        -- eapply only_heap_trans; [| exact Hheap1]. repeat split.
Qed.

(** Over a service that is an object the loop does not throw. *)
Lemma protect_methods_object (ls : nat) (result : val) (methods : list string)
    (s0 : setup_state) :
  ∃ s1, protect_methods (VObj ls) result methods s0 = (Normal tt, s1).
Proof.
  revert s0. induction methods as [| method methods IH]; intros s0.
  - eexists. reflexivity.
  - cbn [protect_methods].
    unfold bind, lift_completion, lift, _protectMethod, new_function.
    cbn [get_property fst snd current registered]. apply IH.
Qed.

Lemma useService_object_result (SERVICES_METADATA : gmap string (list string))
    (serviceName : string) (s : setup_state) (ls : nat) (os : object)
    (methods : list string) :
  services (env (comp (current s))) !! serviceName = Some (VObj ls) →
  SERVICES_METADATA !! serviceName = Some methods →
  objects (current s) !! ls = Some os →
  ∃ o s',
    useService SERVICES_METADATA serviceName s
    = (Normal (VObj (fresh (dom (objects (current s))))), s') ∧
    objects (current s') !! fresh (dom (objects (current s))) = Some o ∧
    proto o = VObj ls ∧
    (∀ k, k ∉ methods → props o !! k = None) ∧
    (∀ k, k ∈ methods →
          ∃ id fn,
            props o !! k = Some (VFun id) ∧
            functions (current s') !! id = Some (Protected (VObj ls) fn) ∧
            functions (current s) !! id = None ∧
            (reads_directly os k → fn = default VUndefined (props os !! k))) ∧
    (∀ x, x ≠ fresh (dom (objects (current s))) →
          objects (current s') !! x = objects (current s) !! x) ∧
    (∀ id c, functions (current s) !! id = Some c →
             functions (current s') !! id = Some c) ∧
    registered s' = registered s ∧
    only_heap (current s) (current s').
Proof.
  intros Hservice Hmeta Hls.
  set (l := fresh (dom (objects (current s)))).
  assert (Hfresh : objects (current s) !! l = None) by (apply not_elem_of_dom, is_fresh).
  assert (Hne : l ≠ ls) by (intros Heq; rewrite Heq in Hfresh; congruence).
  set (s0 := {| current := set_objects (<[l := {| proto := VObj ls; props := ∅ |}]>
                                          (objects (current s))) (current s);
                registered := registered s |}).
  destruct (protect_methods_object ls (VObj l) methods s0) as [s1 Hloop].
  destruct (protect_methods_result ls l os methods s0 s1 {| proto := VObj ls; props := ∅ |}
              Hne) as (o1 & Hl1 & Hproto1 & Hother1 & Hin1 & Hobjs1 & Hfuns1 & Hreg1 & Hheap1).
  { unfold s0. cbn [current objects set_objects]. rewrite lookup_insert_ne by exact Hne.
    exact Hls. }
  { unfold s0. cbn [current objects set_objects]. apply lookup_insert_eq. }
  { exact Hloop. }
  exists o1, s1. split.
  - unfold useService, useComponent, read. unfold bind at 1.
    rewrite bool_decide_eq_true_2 by (rewrite elem_of_dom, Hservice; eauto).
    cbn [negb]. rewrite Hservice. cbn [default from_option id].
    rewrite bool_decide_eq_true_2 by (rewrite elem_of_dom, Hmeta; eauto).
    rewrite Hmeta. cbn [default from_option id instanceof_Function].
    unfold bind at 1. unfold lift_completion at 1. unfold Object_create, new_object.
    fold l. fold s0. unfold bind at 1. rewrite Hloop. reflexivity.
  - split; [exact Hl1 |]. split; [exact Hproto1 |]. split; [| split; [| split]].
    + intros k Hk. rewrite (Hother1 k Hk). apply lookup_empty.
    + exact Hin1.
    + intros x Hx. rewrite (Hobjs1 x Hx). unfold s0. cbn [current objects set_objects].
      apply lookup_insert_ne. congruence.
    + split; [exact Hfuns1 |]. split; [exact Hreg1 |].
      eapply only_heap_trans; [| exact Hheap1]. repeat split.
Qed.



(** A guarded call on a live component: the function the wrapper guards runs
    once, with the wrapper's [caller] as [this] and the arguments as given;
    the caller gets a new promise, rejected at once if the function throws
    and pending otherwise. *)
Lemma protected_call_live (d id g : nat) (caller this : val) (args : list val)
    (b : behaviour) (w : world) :
  functions w !! id = Some (Protected caller (VFun g)) →
  functions w !! g = Some (External b) →
  status (comp w) ≠ DESTROYED →
  let r := call_function (S (S d)) (VFun id) this args w in
  r.1 = Normal (VPromise (fresh (dom (promises w)))) ∧
  trace r.2 = (trace w ++ [Invoked g caller args])%list ∧
  promise_state (fresh (dom (promises w))) r.2
  = Some match b with
         | Throws e => Rejected e
         | _ => Pending
         end.
Proof.
  intros Hid Hg Hstatus. cbn zeta.
  cbn [call_function]. rewrite Hid.
  unfold start, new_promise, advance. cbn [protected_call run comp set_promises].
  rewrite (proj2 (Z.eqb_neq _ _) Hstatus). cbn [run call_function functions set_promises].
  rewrite Hg.
  set (q := fresh (dom (promises w))).
  destruct b as [v | e |]; unfold call_external, new_promise, promise_state; cbn [run fst snd].
  - split; [reflexivity |]. split; [reflexivity |].
    cbn [park promises set_tasks log set_trace set_promises].
    rewrite lookup_insert_eq. reflexivity.
  - split; [reflexivity |]. unfold settle.
    cbn [promises log set_trace set_promises]. rewrite lookup_insert_eq. cbn [state].
    split; [reflexivity |]. cbn [promises set_promises]. rewrite lookup_insert_eq.
    reflexivity.
  - split; [reflexivity |]. split; [reflexivity |].
    cbn [park promises set_tasks log set_trace set_promises].
    rewrite lookup_insert_ne, lookup_insert_eq; [reflexivity |].
    intros Heq.
    apply (is_fresh (dom (<[q := {| state := Pending; settleable := false |}]> (promises w)))).
    rewrite Heq, dom_insert_L. apply elem_of_union_l, elem_of_singleton. reflexivity.
Qed.

Lemma useService_function_result (SERVICES_METADATA : gmap string (list string))
    (serviceName : string) (s : setup_state) (g : nat) (methods : list string) :
  services (env (comp (current s))) !! serviceName = Some (VFun g) →
  SERVICES_METADATA !! serviceName = Some methods →
  useService SERVICES_METADATA serviceName s
  = (Normal (VFun (fresh (dom (functions (current s))))),
     {| current := set_functions
                     (<[fresh (dom (functions (current s))) := Protected VNull (VFun g)]>
                        (functions (current s))) (current s);
        registered := registered s |}).
Proof.
  intros Hservice Hmeta. unfold useService, useComponent, read. unfold bind at 1.
  rewrite bool_decide_eq_true_2 by (rewrite elem_of_dom, Hservice; eauto).
  cbn [negb]. rewrite Hservice. cbn [default from_option id].
  rewrite bool_decide_eq_true_2 by (rewrite elem_of_dom, Hmeta; eauto).
  reflexivity.
Qed.

(** X10: a guarded service that is a function.  [useService] returns a new
    function and leaves the service and the rest of the world as they are.
    Called on a live component, the new function calls the service once,
    with [null] as [this] (whatever [this] the caller used) and with the
    caller's arguments, and returns a new promise. *)
Theorem useService_function_receiver (SERVICES_METADATA : gmap string (list string))
    (serviceName : string) (s : setup_state) (g : nat) (b : behaviour)
    (methods : list string) :
  services (env (comp (current s))) !! serviceName = Some (VFun g) →
  SERVICES_METADATA !! serviceName = Some methods →
  functions (current s) !! g = Some (External b) →
  ∃ id s',
    useService SERVICES_METADATA serviceName s = (Normal (VFun id), s') ∧
    functions (current s) !! id = None ∧
    functions (current s') !! g = Some (External b) ∧
    objects (current s') = objects (current s) ∧
    registered s' = registered s ∧
    only_heap (current s) (current s') ∧
    ∀ (w : world) (this : val) (args : list val) (depth : nat),
      functions w !! id = functions (current s') !! id →
      functions w !! g = Some (External b) →
      status (comp w) ≠ DESTROYED →
      (2 ≤ depth)%nat →
      let r := call_function depth (VFun id) this args w in
      r.1 = Normal (VPromise (fresh (dom (promises w)))) ∧
      trace r.2 = (trace w ++ [Invoked g VNull args])%list.
Proof.
  intros Hservice Hmeta Hg.
  set (f := fresh (dom (functions (current s)))).
  assert (Hfresh : functions (current s) !! f = None) by (apply not_elem_of_dom, is_fresh).
  eexists f, _.
  split; [apply (useService_function_result _ _ _ g methods Hservice Hmeta) |].
  cbn [current registered functions objects set_functions].
  split; [exact Hfresh |]. split.
  { rewrite lookup_insert_ne by (intros Heq; fold f in Heq; rewrite Heq in Hfresh; congruence).
    exact Hg. }
  split; [reflexivity |]. split; [reflexivity |]. split; [repeat split |].
  intros w this args depth Hid Hgw Hstatus Hdepth.
  fold f in Hid. rewrite lookup_insert_eq in Hid.
  destruct depth as [| [| d]]; [lia | lia |].
  destruct (protected_call_live d f g VNull this args b w Hid Hgw Hstatus) as (Hr & Htr & _).
  split; assumption.
Qed.

Lemma useService_function_receiver_witness :
  ∃ id s',
    useService Example.METADATA "rpc" (Example.at_setup Example.desktop)
    = (Normal (VFun id), s') ∧
    functions (current (Example.at_setup Example.desktop)) !! id = None ∧
    functions (current s') !! 0%nat = Some (External Starts) ∧
    objects (current s') = objects (current (Example.at_setup Example.desktop)) ∧
    registered s' = registered (Example.at_setup Example.desktop) ∧
    only_heap (current (Example.at_setup Example.desktop)) (current s') ∧
    ∀ (w : world) (this : val) (args : list val) (depth : nat),
      functions w !! id = functions (current s') !! id →
      functions w !! 0%nat = Some (External Starts) →
      status (comp w) ≠ DESTROYED →
      (2 ≤ depth)%nat →
      let r := call_function depth (VFun id) this args w in
      r.1 = Normal (VPromise (fresh (dom (promises w)))) ∧
      trace r.2 = (trace w ++ [Invoked 0 VNull args])%list.
Proof.
  apply (useService_function_receiver Example.METADATA "rpc"
           (Example.at_setup Example.desktop) 0 Starts []); vm_compute; reflexivity.
Defined.

(** X11: a guarded method of a service that is an object.  The property of
    the returned object is a new function; called on a live component it
    calls the service's own method once, with the service as [this]
    (whatever the caller's [this]) and with the caller's arguments. *)
Theorem useService_method_receiver (SERVICES_METADATA : gmap string (list string))
    (serviceName : string) (s : setup_state) (ls : nat) (os : object)
    (methods : list string) (method : string) (g : nat) (b : behaviour) :
  services (env (comp (current s))) !! serviceName = Some (VObj ls) →
  SERVICES_METADATA !! serviceName = Some methods →
  objects (current s) !! ls = Some os →
  method ∈ methods →
  props os !! method = Some (VFun g) →
  functions (current s) !! g = Some (External b) →
  ∃ l id s',
    useService SERVICES_METADATA serviceName s = (Normal (VObj l), s') ∧
    get_property (VObj l) method (current s') = Normal (VFun id) ∧
    functions (current s) !! id = None ∧
    ∀ (w : world) (this : val) (args : list val) (depth : nat),
      functions w !! id = functions (current s') !! id →
      functions w !! g = Some (External b) →
      status (comp w) ≠ DESTROYED →
      (2 ≤ depth)%nat →
      let r := call_function depth (VFun id) this args w in
      r.1 = Normal (VPromise (fresh (dom (promises w)))) ∧
      trace r.2 = (trace w ++ [Invoked g (VObj ls) args])%list.
Proof.
  intros Hservice Hmeta Hls Hmethod Hown Hg.
  destruct (useService_object_result SERVICES_METADATA serviceName s ls os methods
              Hservice Hmeta Hls)
    as (o & s' & Huse & Hl & Hproto & Hother & Hin & _).
  destruct (Hin method Hmethod) as (id & fn & Hprop & Hid & Hnew & Hread).
  assert (Hfn : fn = VFun g).
  { rewrite Hread by (left; eauto). rewrite Hown. reflexivity. }
  subst fn.
  exists (fresh (dom (objects (current s)))), id, s'.
  split; [exact Huse |]. split.
  { unfold get_property. cbn [lookup_chain]. rewrite Hl, Hprop. reflexivity. }
  split; [exact Hnew |].
  intros w this args depth Hidw Hgw Hstatus Hdepth. rewrite Hid in Hidw.
  destruct depth as [| [| d]]; [lia | lia |].
  destruct (protected_call_live d id g (VObj ls) this args b w Hidw Hgw Hstatus)
    as (Hr & Htr & _).
  split; assumption.
Qed.

Lemma useService_method_receiver_witness :
  ∃ l id s',
    useService Example.METADATA "orm" (Example.at_setup Example.desktop)
    = (Normal (VObj l), s') ∧
    get_property (VObj l) "call" (current s') = Normal (VFun id) ∧
    functions (current (Example.at_setup Example.desktop)) !! id = None ∧
    ∀ (w : world) (this : val) (args : list val) (depth : nat),
      functions w !! id = functions (current s') !! id →
      functions w !! 0%nat = Some (External Starts) →
      status (comp w) ≠ DESTROYED →
      (2 ≤ depth)%nat →
      let r := call_function depth (VFun id) this args w in
      r.1 = Normal (VPromise (fresh (dom (promises w)))) ∧
      trace r.2 = (trace w ++ [Invoked 0 (VObj 0) args])%list.
Proof.
  apply (useService_method_receiver Example.METADATA "orm"
           (Example.at_setup Example.desktop) 0
           {| proto := VNull; props := {[ "call" := VFun 0 ]} |} ["call"] "call" 0 Starts);
    try (vm_compute; reflexivity).
  left.
Defined.

(** A guarded call on a live component when what the wrapper guards is no
    function. *)
Lemma protected_call_not_function (d id : nat) (caller fn this : val)
    (args : list val) (w : world) :
  functions w !! id = Some (Protected caller fn) →
  (∀ g, fn ≠ VFun g) →
  status (comp w) ≠ DESTROYED →
  call_function (S (S d)) (VFun id) this args w
  = (Normal (VPromise (fresh (dom (promises w)))),
     set_promises
       (<[fresh (dom (promises w)) :=
            {| state := Rejected (VTypeError "not a function"); settleable := false |}]>
          (promises w)) w).
Proof.
  intros Hid Hfn Hstatus. cbn [call_function]. rewrite Hid.
  unfold start, new_promise, advance. cbn [protected_call run comp set_promises].
  rewrite (proj2 (Z.eqb_neq _ _) Hstatus).
  destruct fn; try (exfalso; eapply Hfn; reflexivity);
    (cbn [run]; unfold settle; cbn [promises set_promises];
     rewrite lookup_insert_eq; cbn [state promises set_promises];
     rewrite insert_insert_eq; reflexivity).
Qed.

(** X12: the metadata lists a method that the service object (an object
    without prototype) does not have.  [useService] does not complain: the
    returned object has the property, a wrapper around [undefined].  Called
    on a live component the wrapper returns a promise rejected with a
    TypeError, and nothing else changes. *)
Theorem useService_missing_method (SERVICES_METADATA : gmap string (list string))
    (serviceName : string) (s : setup_state) (ls : nat) (os : object)
    (methods : list string) (method : string) :
  services (env (comp (current s))) !! serviceName = Some (VObj ls) →
  SERVICES_METADATA !! serviceName = Some methods →
  objects (current s) !! ls = Some os →
  method ∈ methods →
  props os !! method = None →
  proto os = VNull →
  ∃ l id s',
    useService SERVICES_METADATA serviceName s = (Normal (VObj l), s') ∧
    get_property (VObj l) method (current s') = Normal (VFun id) ∧
    functions (current s') !! id = Some (Protected (VObj ls) VUndefined) ∧
    ∀ (w : world) (this : val) (args : list val) (depth : nat),
      functions w !! id = functions (current s') !! id →
      status (comp w) ≠ DESTROYED →
      (2 ≤ depth)%nat →
      call_function depth (VFun id) this args w
      = (Normal (VPromise (fresh (dom (promises w)))),
         set_promises
           (<[fresh (dom (promises w)) :=
                {| state := Rejected (VTypeError "not a function");
                   settleable := false |}]> (promises w)) w).
Proof.
  intros Hservice Hmeta Hls Hmethod Hmissing Hproto.
  destruct (useService_object_result SERVICES_METADATA serviceName s ls os methods
              Hservice Hmeta Hls)
    as (o & s' & Huse & Hl & _ & Hother & Hin & _).
  destruct (Hin method Hmethod) as (id & fn & Hprop & Hid & Hnew & Hread).
  assert (Hfn : fn = VUndefined).
  { rewrite Hread by (right; exact Hproto). rewrite Hmissing. reflexivity. }
  subst fn.
  exists (fresh (dom (objects (current s)))), id, s'.
  split; [exact Huse |]. split.
  { unfold get_property. cbn [lookup_chain]. rewrite Hl, Hprop. reflexivity. }
  split; [exact Hid |].
  intros w this args depth Hidw Hstatus Hdepth. rewrite Hid in Hidw.
  destruct depth as [| [| d]]; [lia | lia |].
  apply (protected_call_not_function d id (VObj ls) VUndefined this args w Hidw);
    [discriminate | exact Hstatus].
Qed.

Lemma useService_missing_method_witness :
  ∃ l id s',
    useService Example.CARELESS_METADATA "orm" (Example.at_setup Example.careless)
    = (Normal (VObj l), s') ∧
    get_property (VObj l) "read" (current s') = Normal (VFun id) ∧
    functions (current s') !! id = Some (Protected (VObj 0) VUndefined) ∧
    ∀ (w : world) (this : val) (args : list val) (depth : nat),
      functions w !! id = functions (current s') !! id →
      status (comp w) ≠ DESTROYED →
      (2 ≤ depth)%nat →
      call_function depth (VFun id) this args w
      = (Normal (VPromise (fresh (dom (promises w)))),
         set_promises
           (<[fresh (dom (promises w)) :=
                {| state := Rejected (VTypeError "not a function");
                   settleable := false |}]> (promises w)) w).
Proof.
  apply (useService_missing_method Example.CARELESS_METADATA "orm"
           (Example.at_setup Example.careless) 0
           {| proto := VNull; props := {[ "call" := VFun 0 ]} |} ["call"; "read"] "read");
    try (vm_compute; reflexivity).
  right. left.
Defined.

(** X13: a guarded name whose registry value is neither an object nor a
    function (a number, a string, a boolean, [undefined]): [useService]
    throws the TypeError of [Object.create], and the state of the setup is
    untouched. *)
Theorem useService_guarded_primitive (SERVICES_METADATA : gmap string (list string))
    (serviceName : string) (s : setup_state) (service : val) (methods : list string) :
  services (env (comp (current s))) !! serviceName = Some service →
  SERVICES_METADATA !! serviceName = Some methods →
  typeof service ≠ "object" →
  typeof service ≠ "function" →
  useService SERVICES_METADATA serviceName s
  = (Throw (VTypeError "Object prototype may only be an Object or null"), s).
Proof.
  intros Hservice Hmeta Hobj Hfun.
  unfold useService, useComponent, read. unfold bind at 1.
  rewrite bool_decide_eq_true_2 by (rewrite elem_of_dom, Hservice; eauto).
  cbn [negb]. rewrite Hservice. cbn [default from_option id].
  rewrite bool_decide_eq_true_2 by (rewrite elem_of_dom, Hmeta; eauto).
  destruct s as [w hooks].
  destruct service; cbn [typeof] in Hobj, Hfun; try contradiction; reflexivity.
Qed.

Lemma useService_guarded_primitive_witness :
  useService Example.CARELESS_METADATA "version" (Example.at_setup Example.careless)
  = (Throw (VTypeError "Object prototype may only be an Object or null"),
     Example.at_setup Example.careless).
Proof.
  apply (useService_guarded_primitive Example.CARELESS_METADATA "version"
           (Example.at_setup Example.careless) (VNum 15) []);
    vm_compute; (reflexivity || discriminate).
Defined.

(** ** The guarded method on a live component *)

Lemma fold_resume_keeps (depth : nat) (ts : list task) (w : world) (x : nat) :
  x ∈ dom (promises w) →
  (∀ t, t ∈ ts → outcome t ∈ dom (promises w) ∧ outcome t ≠ x) →
  let w' := fold_left (fun w0 t => resume (call_function depth) t w0) ts w in
  promises w' !! x = promises w !! x ∧
  comp w' = comp w ∧
  dom (promises w) ⊆ dom (promises w').
Proof.
  revert w. induction ts as [| t ts IH]; intros w Hx Hts; cbn zeta.
  - cbn [fold_left]. auto.
  - cbn [fold_left]. destruct (Hts t (list_elem_of_here _ _)) as [Hin Hne].
    pose proof (frame_resume (call_function depth) (frame_call_function depth) t w Hin)
      as (Hc & Hpr & Hd & _).
    destruct (IH (resume (call_function depth) t w)) as (Hp' & Hc' & Hd').
    + eapply elem_of_weaken; eassumption.
    + intros t' Ht'. destruct (Hts t') as [Hin' Hne']; [right; exact Ht' |].
      split; [eapply elem_of_weaken; eassumption | exact Hne'].
    + split; [| split].
      * rewrite Hp'. apply Hpr; [exact Hx |].
        intros Heq. apply elem_of_singleton in Heq. congruence.
      * congruence.
      * etransitivity; eassumption.
Qed.

Lemma settle_outside_fulfils (p : nat) (v : val) (w : world) :
  promises w !! p = Some {| state := Pending; settleable := true |} →
  (∀ x, v ≠ VPromise x) →
  settle_outside p (Normal v) w
  = set_promises (<[p := {| state := Fulfilled v; settleable := false |}]> (promises w)) w.
Proof.
  intros Hp Hplain. unfold settle_outside. rewrite Hp.
  assert (Hres : ∀ w0, resolve p v w0 = settle p (Fulfilled v) w0).
  { intros w0. destruct v; try reflexivity. exfalso. apply (Hplain p0). reflexivity. }
  rewrite Hres. unfold settle. cbn [promises set_promises].
  rewrite lookup_insert_eq. cbn [state promises set_promises].
  rewrite insert_insert_eq. reflexivity.
Qed.

(** X14: a guarded method is called on a live component and the service
    starts an asynchronous operation.  When the operation is fulfilled with
    a value while the component is still alive, the next turn of the parked
    bodies fulfils the caller's promise with that value: the wrapper passes
    the result through. *)
Theorem guarded_method_result_reaches_caller
    (SERVICES_METADATA : gmap string (list string)) (serviceName : string)
    (s s' : setup_state) (wrapper : val) (w : world) (this : val) (args : list val)
    (depth : nat) :
  guarded_method SERVICES_METADATA serviceName s wrapper s' →
  same_function wrapper (current s') w →
  guards_operation wrapper w →
  status (comp w) ≠ DESTROYED →
  tasks_known w →
  (2 ≤ depth)%nat →
  ∃ q p,
    let r := call_function depth wrapper this args w in
    r.1 = Normal (VPromise q) ∧
    promise_state q r.2 = Some Pending ∧
    promises r.2 !! p = Some {| state := Pending; settleable := true |} ∧
    ∀ v, (∀ x, v ≠ VPromise x) →
         promise_state q (steps depth [Settled p (Normal v); Tick] r.2)
         = Some (Fulfilled v).
Proof.
  intros Hguarded Hsame Hop Hstatus Hknown Hdepth.
  destruct (guarded_method_protected _ _ _ _ _ Hguarded) as (id & caller & fn & -> & Hid).
  rewrite <- (Hsame id eq_refl) in Hid.
  destruct (Hop id caller fn eq_refl Hid) as (g & -> & Hg).
  destruct depth as [| [| d]]; [lia | lia |].
  set (q := fresh (dom (promises w))).
  set (wq := set_promises (<[q := {| state := Pending; settleable := false |}]> (promises w)) w).
  set (p := fresh (dom (promises wq))).
  exists q, p. cbn zeta.
  rewrite (protected_call_starts d id g caller this args w Hid Hg Hstatus).
  fold q. fold wq. fold p. cbn [fst snd].
  set (t0 := {| awaited := VPromise p; continuation := protected_rest; outcome := q |}).
  set (w1 := park t0 _).
  assert (Hq : promises w !! q = None) by (apply not_elem_of_dom, is_fresh).
  assert (Hpq : promises wq !! p = None) by (apply not_elem_of_dom, is_fresh).
  assert (Hne : p ≠ q).
  { intros Heq. rewrite Heq in Hpq. unfold wq in Hpq. cbn [promises set_promises] in Hpq.
    rewrite lookup_insert_eq in Hpq. discriminate Hpq. }
  assert (Hp : promises w !! p = None).
  { unfold wq in Hpq. cbn [promises set_promises] in Hpq.
    rewrite lookup_insert_ne in Hpq by congruence. exact Hpq. }
  assert (Hp1 : promises w1 !! p = Some {| state := Pending; settleable := true |}).
  { unfold w1. cbn [promises park set_tasks set_promises]. apply lookup_insert_eq. }
  assert (Hq1 : promises w1 !! q = Some {| state := Pending; settleable := false |}).
  { unfold w1, wq. cbn [promises park set_tasks set_promises log set_trace].
    rewrite lookup_insert_ne by exact Hne. apply lookup_insert_eq. }
  split; [reflexivity |].
  split; [unfold promise_state; rewrite Hq1; reflexivity |].
  split; [exact Hp1 |].
  intros v Hplain. unfold steps. cbn [fold_left step].
  rewrite (settle_outside_fulfils p v w1 Hp1 Hplain).
  set (w2 := set_promises _ w1).
  assert (Hp2 : promises w2 !! p = Some {| state := Fulfilled v; settleable := false |}).
  { unfold w2. cbn [promises set_promises]. apply lookup_insert_eq. }
  assert (Hq2 : promises w2 !! q = Some {| state := Pending; settleable := false |}).
  { unfold w2. cbn [promises set_promises]. rewrite lookup_insert_ne by exact Hne.
    exact Hq1. }
  assert (Hdom2 : ∀ x, x ∈ dom (promises w) → x ∈ dom (promises w2)).
  { intros x Hx. unfold w2, w1, wq.
    cbn [promises park set_tasks set_promises log set_trace].
    rewrite !dom_insert_L. do 3 apply elem_of_union_r. exact Hx. }
  unfold tick.
  assert (Htasks : tasks w2 = (tasks w ++ [t0])%list) by reflexivity.
  rewrite Htasks, fold_left_app. cbn [fold_left].
  set (w3 := fold_left _ (tasks w) (set_tasks [] w2)).
  assert (Hothers : ∀ x, x ∈ dom (promises w2) → x = p ∨ x = q →
                         promises w3 !! x = promises w2 !! x ∧ comp w3 = comp w2).
  { intros x Hx Hor.
    destruct (fold_resume_keeps (S (S d)) (tasks w) (set_tasks [] w2) x Hx)
      as (Hkeep & Hc & _); [| auto].
    intros t Ht. pose proof (Hknown t Ht) as Hin.
    split; [apply Hdom2, Hin |].
    intros Heq. rewrite Heq in Hin. apply elem_of_dom in Hin as [y Hy].
    destruct Hor as [-> | ->]; congruence. }
  destruct (Hothers p) as [Hp3 Hc3]; [apply elem_of_dom; eauto | auto |].
  destruct (Hothers q) as [Hq3 _]; [apply elem_of_dom; eauto | auto |].
  rewrite Hp2 in Hp3. rewrite Hq2 in Hq3.
  assert (Hstatus3 : status (comp w3) ≠ DESTROYED) by (rewrite Hc3; exact Hstatus).
  unfold resume, ready. cbn [awaited t0]. rewrite Hp3. cbn [state continuation outcome t0].
  unfold advance, protected_rest. cbn [run].
  rewrite (proj2 (Z.eqb_neq _ _) Hstatus3). cbn [run].
  assert (Hres : resolve q v w3 = settle q (Fulfilled v) w3).
  { destruct v; try reflexivity. exfalso. apply (Hplain p0). reflexivity. }
  rewrite Hres. unfold settle. rewrite Hq3. cbn [state].
  unfold promise_state. cbn [promises set_promises]. rewrite lookup_insert_eq.
  reflexivity.
Qed.

Lemma guarded_method_result_reaches_caller_witness :
  ∃ q p,
    let r := call_function 2 (VFun 3) VUndefined [VNum 1]
               (useService Example.METADATA "rpc"
                  (Example.at_setup Example.desktop)).2.(current) in
    r.1 = Normal (VPromise q) ∧
    promise_state q r.2 = Some Pending ∧
    promises r.2 !! p = Some {| state := Pending; settleable := true |} ∧
    ∀ v, (∀ x, v ≠ VPromise x) →
         promise_state q (steps 2 [Settled p (Normal v); Tick] r.2)
         = Some (Fulfilled v).
Proof.
  apply (guarded_method_result_reaches_caller Example.METADATA "rpc"
           (Example.at_setup Example.desktop)
           (useService Example.METADATA "rpc" (Example.at_setup Example.desktop)).2
           (VFun 3)).
  - exists (VFun 0), [], (VFun 3).
    split; [vm_compute; reflexivity |]. split; [vm_compute; reflexivity |].
    split; [vm_compute; reflexivity |].
    left. split; reflexivity.
  - intros id _. reflexivity.
  - intros id caller fn Hid Hfn. injection Hid as <-.
    vm_compute in Hfn. injection Hfn as _ <-.
    exists 0%nat. split; [reflexivity | vm_compute; reflexivity].
  - vm_compute. discriminate.
  - intros t Ht. inversion Ht.
  - lia.
Defined.

(** X15: when the function that a guarded method wraps throws as soon as it
    is called, the wrapper does not throw: on a live component it returns a
    new promise that is already rejected with what the function threw. *)
Theorem guarded_method_underlying_throws
    (SERVICES_METADATA : gmap string (list string)) (serviceName : string)
    (s s' : setup_state) (wrapper : val) (w : world) (this : val) (args : list val)
    (depth : nat) (e : val) :
  guarded_method SERVICES_METADATA serviceName s wrapper s' →
  same_function wrapper (current s') w →
  guards_external (Throws e) wrapper w →
  status (comp w) ≠ DESTROYED →
  (2 ≤ depth)%nat →
  let r := call_function depth wrapper this args w in
  r.1 = Normal (VPromise (fresh (dom (promises w)))) ∧
  promises w !! fresh (dom (promises w)) = None ∧
  promise_state (fresh (dom (promises w))) r.2 = Some (Rejected e) ∧
  ¬ raises r.
Proof.
  intros Hguarded Hsame Hop Hstatus Hdepth.
  destruct (guarded_method_protected _ _ _ _ _ Hguarded) as (id & caller & fn & -> & Hid).
  rewrite <- (Hsame id eq_refl) in Hid.
  destruct (Hop id caller fn eq_refl Hid) as (g & -> & Hg).
  destruct depth as [| [| d]]; [lia | lia |].
  destruct (protected_call_live d id g caller this args (Throws e) w Hid Hg Hstatus)
    as (Hr & _ & Hstate).
  cbn zeta. split; [exact Hr |]. split; [apply not_elem_of_dom, is_fresh |].
  split; [exact Hstate |].
  intros [e' He']. rewrite Hr in He'. discriminate He'.
Qed.

Lemma guarded_method_underlying_throws_witness :
  let w := (useService Example.FAILING_METADATA "mail"
              {| current := Example.failing_world; registered := [] |}).2.(current) in
  let r := call_function 2 (VFun 4) VUndefined [VStr "hello"] w in
  r.1 = Normal (VPromise (fresh (dom (promises w)))) ∧
  promises w !! fresh (dom (promises w)) = None ∧
  promise_state (fresh (dom (promises w))) r.2 = Some (Rejected (VError "offline")) ∧
  ¬ raises r.
Proof.
  apply (guarded_method_underlying_throws Example.FAILING_METADATA "mail"
           {| current := Example.failing_world; registered := [] |}
           (useService Example.FAILING_METADATA "mail"
              {| current := Example.failing_world; registered := [] |}).2
           (VFun 4)).
  - exists (VFun 3), [], (VFun 4).
    split; [vm_compute; reflexivity |]. split; [vm_compute; reflexivity |].
    split; [vm_compute; reflexivity |].
    left. split; reflexivity.
  - intros id _. reflexivity.
  - intros id caller fn Hid Hfn. injection Hid as <-.
    vm_compute in Hfn. injection Hfn as _ <-.
    exists 3%nat. split; [reflexivity | vm_compute; reflexivity].
  - vm_compute. discriminate.
  - lia.
Defined.

(** X16: a guarded method never throws to its caller.  In every state of the
    world, whatever the component's status and whatever it guards, a call
    (with room for it on the stack) completes normally and returns a promise
    that did not exist before. *)
Theorem guarded_method_returns_promise
    (SERVICES_METADATA : gmap string (list string)) (serviceName : string)
    (s s' : setup_state) (wrapper : val) (w : world) (this : val) (args : list val)
    (depth : nat) :
  guarded_method SERVICES_METADATA serviceName s wrapper s' →
  same_function wrapper (current s') w →
  (1 ≤ depth)%nat →
  let r := call_function depth wrapper this args w in
  r.1 = Normal (VPromise (fresh (dom (promises w)))) ∧
  promises w !! fresh (dom (promises w)) = None ∧
  is_Some (promises r.2 !! fresh (dom (promises w))).
Proof.
  intros Hguarded Hsame Hdepth.
  destruct (guarded_method_protected _ _ _ _ _ Hguarded) as (id & caller & fn & -> & Hid).
  rewrite <- (Hsame id eq_refl) in Hid.
  destruct depth as [| d]; [lia |].
  cbn zeta. cbn [call_function]. rewrite Hid.
  pose proof (frame_call_function (S d) (VFun id) this args w) as (_ & _ & Hdom & _).
  cbn [call_function] in Hdom. rewrite Hid in Hdom.
  unfold start in *. unfold new_promise in *. cbn [fst snd] in *.
  split; [reflexivity |]. split; [apply not_elem_of_dom, is_fresh |].
  apply elem_of_dom.
  pose proof (frame_advance (call_function d) (frame_call_function d)
                (fresh (dom (promises w))) (protected_call caller fn args)
                (set_promises (<[fresh (dom (promises w)) :=
                                   {| state := Pending; settleable := false |}]>
                                 (promises w)) w)) as Hadv.
  destruct Hadv as (_ & _ & Hd & _).
  - cbn [promises set_promises]. rewrite dom_insert_L.
    apply elem_of_union_l, elem_of_singleton. reflexivity.
  - eapply elem_of_weaken; [| exact Hd].
    cbn [promises set_promises]. rewrite dom_insert_L.
    apply elem_of_union_l, elem_of_singleton. reflexivity.
Qed.

Lemma guarded_method_returns_promise_witness :
  let w := destroy (useService Example.METADATA "orm"
                      (Example.at_setup Example.desktop)).2.(current) in
  let r := call_function 1 (VFun 3) (VObj 2) [] w in
  r.1 = Normal (VPromise (fresh (dom (promises w)))) ∧
  promises w !! fresh (dom (promises w)) = None ∧
  is_Some (promises r.2 !! fresh (dom (promises w))).
Proof.
  apply (guarded_method_returns_promise Example.METADATA "orm"
           (Example.at_setup Example.desktop)
           (useService Example.METADATA "orm" (Example.at_setup Example.desktop)).2
           (VFun 3)).
  - exists (VObj 0), ["call"], (VObj 2).
    split; [vm_compute; reflexivity |]. split; [vm_compute; reflexivity |].
    split; [vm_compute; reflexivity |].
    right. split; [reflexivity |].
    exists "call". split; [left | vm_compute; reflexivity].
  - intros id _. reflexivity.
  - lia.
Defined.
